(** * A shallow embedding of the ledger engine of [main.py]

    The development follows the layout of the Python file: the library
    functions the code calls ([hashlib.sha256], [json.dumps], [float.__repr__],
    [datetime.isoformat], string slicing and [str.strip]) come first, then the
    class [Block], then the class [Blockchain], then the notions the
    properties are stated with, then the properties.

    - Python [str] values are modelled by their UTF-8 encoding, a Rocq
      [string] (a sequence of bytes); concatenation, equality and
      lexicographic order of [str] agree with those of the encodings.
    - Amounts are Python floats: Rocq's primitive binary64 floats, behind a
      small class of the operations the code uses.
    - A transaction is a record of its three fields; the requests that
      [add_transaction] receives may lack any of them.
    - A timestamp is a timezone-aware [datetime] in UTC.
    - A method of [Blockchain] returns its result, or the exception it
      raises, together with the state of the ledger; the clock reading is
      an argument of [mine_block].
    - The proof-of-work loop has no bound in the code; it takes fuel here,
      and [None] means that the fuel ran out.
    - The records that nodes exchange ([to_dict], [from_dict]) and the
      handlers [receive_block] and [sync] come after the ledger; the
      handlers take what the decoding of their input gave, a block or the
      chains of the peers, as an argument. *)

From Stdlib Require Import ZArith NArith Uint63 Floats Ascii String List Permutation Lia.
From stdpp Require Import gmap strings list sorting.

Local Open Scope Z_scope.

(** ** Python builtins on integers and strings *)

Module Py.

Definition digit_char (d : N) : ascii := ascii_of_N (48 + d).

(** Decimal digits of a natural number, most significant first; the fuel
    bounds the number of digits. *)
Fixpoint digits_fuel (fuel : nat) (n : N) (acc : string) : string :=
  match fuel with
  | O => acc
  | S fuel' =>
      let acc' := String (digit_char (n mod 10)) acc in
      if (n / 10 =? 0)%N then acc' else digits_fuel fuel' (n / 10)%N acc'
  end.

Definition str_of_N (n : N) : string :=
  digits_fuel (S (N.to_nat (N.log2 n))) n "".

(** [str(n)] for a Python [int]. *)
Definition str_of_int (n : Z) : string :=
  match n with
  | Z0 => "0"
  | Zpos p => str_of_N (Npos p)
  | Zneg p => "-" +:+ str_of_N (Npos p)
  end.

(** [c * n] for a one-character string [c]: empty when [n <= 0]. *)
Definition str_repeat (c : ascii) (n : Z) : string :=
  string_of_list_ascii (repeat c (Z.to_nat n)).

(** [format(n, "0{w}d")] for a non-negative [n]. *)
Definition zero_pad (w : nat) (n : N) : string :=
  let s := str_of_N n in
  str_repeat "0"%char (Z.of_nat (w - String.length s)) +:+ s.

(** [s[:k]]: the first [k] characters when [k >= 0] (all of [s] when it is
    shorter), and all but the last [-k] characters when [k < 0]. *)
Definition str_prefix (k : Z) (s : string) : string :=
  if 0 <=? k then substring 0 (Z.to_nat k) s
  else substring 0 (String.length s - Z.to_nat (- k)) s.

(** [l[:k]] on lists, with the same convention. *)
Definition list_prefix {A} (k : Z) (l : list A) : list A :=
  if 0 <=? k then take (Z.to_nat k) l
  else take (length l - Z.to_nat (- k)) l.

(** [str.isspace] on the UTF-8 encoding: the whitespace code points of
    Python are U+0009..U+000D, U+001C..U+0020, U+0085, U+00A0, U+1680,
    U+2000..U+200A, U+2028, U+2029, U+202F, U+205F and U+3000.
    [skip_space] consumes one whitespace character, if there is one. *)
Definition skip_space (s : string) : option string :=
  match s with
  | String c rest =>
      let n := N_of_ascii c in
      if ((9 <=? n) && (n <=? 13) || (28 <=? n) && (n <=? 32))%N then Some rest
      else
        match rest with
        | String c1 rest1 =>
            let n1 := N_of_ascii c1 in
            if ((n =? 194) && ((n1 =? 133) || (n1 =? 160)))%N then Some rest1
            else
              match rest1 with
              | String c2 rest2 =>
                  let n2 := N_of_ascii c2 in
                  if ((n =? 225) && (n1 =? 154) && (n2 =? 128)
                      || (n =? 226) && (n1 =? 128)
                         && ((128 <=? n2) && (n2 <=? 138)
                             || (n2 =? 168) || (n2 =? 169) || (n2 =? 175))
                      || (n =? 226) && (n1 =? 129) && (n2 =? 159)
                      || (n =? 227) && (n1 =? 128) && (n2 =? 128))%N
                  then Some rest2 else None
              | EmptyString => None
              end
        | EmptyString => None
        end
  | EmptyString => None
  end.

Fixpoint all_space_fuel (fuel : nat) (s : string) : bool :=
  match s with
  | EmptyString => true
  | _ =>
      match fuel with
      | O => false
      | S fuel' =>
          match skip_space s with
          | Some rest => all_space_fuel fuel' rest
          | None => false
          end
      end
  end.

(** [not s.strip()]: the string is empty or made of whitespace only. *)
Definition is_blank (s : string) : bool := all_space_fuel (String.length s) s.

End Py.

(** ** [hashlib.sha256(...).hexdigest()] (FIPS 180-4)

    Words of 32 bits are held in machine integers of 63 bits and masked
    after each addition and left shift. *)

Module SHA256.
Local Open Scope uint63_scope.

Definition mask32 : int := 0xffffffff.
Definition add32 (x y : int) : int := (x + y) land mask32.
Definition rotr (n x : int) : int := (x >> n) lor ((x << (32 - n)) land mask32).
Definition shr (n x : int) : int := x >> n.
Definition not32 (x : int) : int := x lxor mask32.

Definition Ch (x y z : int) : int := (x land y) lxor (not32 x land z).
Definition Maj (x y z : int) : int := ((x land y) lxor (x land z)) lxor (y land z).
Definition Sigma0 (x : int) : int := (rotr 2 x lxor rotr 13 x) lxor rotr 22 x.
Definition Sigma1 (x : int) : int := (rotr 6 x lxor rotr 11 x) lxor rotr 25 x.
Definition sigma0 (x : int) : int := (rotr 7 x lxor rotr 18 x) lxor shr 3 x.
Definition sigma1 (x : int) : int := (rotr 17 x lxor rotr 19 x) lxor shr 10 x.

(** The constants: the first 32 bits of the fractional parts of the cube
    roots of the first 64 primes, and of the square roots of the first 8. *)
Definition primes : list Z :=
  [ 2; 3; 5; 7; 11; 13; 17; 19; 23; 29; 31; 37; 41; 43; 47; 53; 59; 61; 67; 71;
    73; 79; 83; 89; 97; 101; 103; 107; 109; 113; 127; 131; 137; 139; 149; 151;
    157; 163; 167; 173; 179; 181; 191; 193; 197; 199; 211; 223; 227; 229; 233;
    239; 241; 251; 257; 263; 269; 271; 277; 281; 283; 293; 307; 311 ]%Z.

(** The integer cube root, one bit at a time from bit [bit - 1] down. *)
Fixpoint cube_root (bit : nat) (n r : Z) : Z :=
  match bit with
  | O => r
  | S bit' =>
      let r' := (r + 2 ^ Z.of_nat bit')%Z in
      cube_root bit' n (if (r' * r' * r' <=? n)%Z then r' else r)
  end.

Definition frac32_cube_root (p : Z) : int :=
  Uint63.of_Z ((cube_root 40 (p * 2 ^ 96) 0) mod 2 ^ 32)%Z.

Definition frac32_square_root (p : Z) : int :=
  Uint63.of_Z ((Z.sqrt (p * 2 ^ 64)) mod 2 ^ 32)%Z.

Definition K : list int := Eval vm_compute in map frac32_cube_root primes.

Definition H0 : list int := Eval vm_compute in map frac32_square_root (firstn 8 primes).

(** Big-endian bytes of [x], [n] of them. *)
Fixpoint be_bytes (n : nat) (x : int) : list int :=
  match n with
  | O => []
  | S n' => ((x >> (8 * Uint63.of_Z (Z.of_nat n'))) land 0xff) :: be_bytes n' x
  end.

(** The message followed by the bit 1, zero bytes up to 56 modulo 64, and
    the bit length on 8 bytes. *)
Definition pad (msg : list int) : list int :=
  let len := length msg in
  let zeros := ((64 - ((len + 9) mod 64)) mod 64)%nat in
  msg ++ 0x80 :: repeat 0 zeros ++ be_bytes 8 (8 * Uint63.of_Z (Z.of_nat len)).

Fixpoint words (fuel : nat) (bs : list int) : list int :=
  match fuel, bs with
  | S fuel', b0 :: b1 :: b2 :: b3 :: rest =>
      ((b0 << 24) lor (b1 << 16) lor (b2 << 8) lor b3) :: words fuel' rest
  | _, _ => []
  end.

(** The message schedule: [win] holds the sixteen words before the one
    that is produced next, oldest first. *)
Fixpoint schedule (n : nat) (win : list int) : list int :=
  match n with
  | O => []
  | S n' =>
      let w := add32 (add32 (sigma1 (nth 14 win 0)) (nth 9 win 0))
                     (add32 (sigma0 (nth 1 win 0)) (nth 0 win 0)) in
      w :: schedule n' (tl win ++ [w])
  end.

Definition round (st : list int) (kw : int * int) : list int :=
  match st with
  | [a; b; c; d; e; f; g; h] =>
      let t1 := add32 (add32 (add32 h (Sigma1 e)) (add32 (Ch e f g) (fst kw))) (snd kw) in
      let t2 := add32 (Sigma0 a) (Maj a b c) in
      [add32 t1 t2; a; b; c; add32 d t1; e; f; g]
  | _ => st
  end.

Definition compress (h : list int) (block : list int) : list int :=
  let w16 := words 16 block in
  let w := w16 ++ schedule 48 w16 in
  let st := fold_left round (combine K w) h in
  map (fun p => add32 (fst p) (snd p)) (combine h st).

Fixpoint blocks (fuel : nat) (h : list int) (bs : list int) : list int :=
  match fuel with
  | O => h
  | S fuel' =>
      match bs with
      | [] => h
      | _ => blocks fuel' (compress h (take 64 bs)) (drop 64 bs)
      end
  end.

Definition hex_char (d : N) : ascii :=
  if (d <? 10)%N then ascii_of_N (48 + d) else ascii_of_N (87 + d).

(** [n] hexadecimal digits of [x], most significant first. *)
Fixpoint hex_digits (n : nat) (x : N) : string :=
  match n with
  | O => EmptyString
  | S n' => String (hex_char (N.land (N.shiftr x (4 * N.of_nat n')) 0xf)) (hex_digits n' x)
  end.

Definition digest (msg : list int) : list int :=
  let p := pad msg in blocks (S (length p / 64)) H0 p.

Definition byte_of_ascii (c : ascii) : int := Uint63.of_Z (Z.of_N (N_of_ascii c)).

(** [hashlib.sha256(s.encode()).hexdigest()] *)
Definition hexdigest (s : string) : string :=
  let bytes := map byte_of_ascii (list_ascii_of_string s) in
  fold_right (fun w acc => hex_digits 8 (Z.to_N (Uint63.to_Z w)) +:+ acc)
             EmptyString (digest bytes).

End SHA256.

(** ** [float.__repr__] and the JSON rendering of a float

    [repr] of a finite float is the shortest decimal string that reads back
    as the same binary64 value, the closest one to the value when several
    have that length, in fixed notation when the decimal point falls within
    [-4 < decpt <= 16] and in exponent notation otherwise. *)

Module FloatRepr.

(** [c * 10^q] compared with the rational [n / d] ([d > 0]). *)
Definition cmp_dec (c q n d : Z) : comparison :=
  if 0 <=? q then (c * 10 ^ q * d ?= n) else (c * d ?= n * 10 ^ (- q)).

(** [floor ((n / d) / 10^q)] *)
Definition floor_dec (q n d : Z) : Z :=
  if 0 <=? q then n / (d * 10 ^ q) else (n * 10 ^ (- q)) / d.

(** The least [p], from [p0] on, with [n / d < 10^p]. *)
Fixpoint find_decpt (fuel : nat) (p n d : Z) : Z :=
  match fuel with
  | O => p
  | S fuel' =>
      match cmp_dec 1 p n d with
      | Gt => p
      | _ => find_decpt fuel' (p + 1) n d
      end
  end.

Definition in_interval (even : bool) (c q nlo nhi d : Z) : bool :=
  match cmp_dec c q nlo d, cmp_dec c q nhi d with
  | Gt, Lt => true
  | Eq, _ => even
  | _, Eq => even
  | _, _ => false
  end.

(** The candidate with [n] digits, if one reads back as the value:
    the digits as an integer and the exponent of its last digit. *)
Definition candidate (even : bool) (p nv nlo nhi d : Z) (n : Z) : option Z :=
  let q := p - n in
  let c := floor_dec q nv d in
  let lo_ok := in_interval even c q nlo nhi d in
  let hi_ok := in_interval even (c + 1) q nlo nhi d in
  match lo_ok, hi_ok with
  | false, false => None
  | true, false => Some c
  | false, true => Some (c + 1)
  | true, true =>
      match cmp_dec (2 * c + 1) q (2 * nv) d with
      | Gt => Some c
      | Lt => Some (c + 1)
      | Eq => Some (if Z.even c then c else c + 1)
      end
  end.

Fixpoint shortest (fuel : nat) (even : bool) (p nv nlo nhi d : Z) (n : Z) : Z * Z :=
  match fuel with
  | O => (floor_dec (p - n) nv d, n)
  | S fuel' =>
      match candidate even p nv nlo nhi d n with
      | Some c => (c, n)
      | None => shortest fuel' even p nv nlo nhi d (n + 1)
      end
  end.

(** The digits of the shortest representation of [m * 2^e] and the
    position [decpt] of the decimal point relative to their start. *)
Definition digits (m : positive) (e : Z) : string * Z :=
  let m := Zpos m in
  let boundary := (m =? 2 ^ 52) && (-1074 <? e) in
  let sh := e - 2 in
  let up := if 0 <=? sh then 2 ^ sh else 1 in
  let d := if 0 <=? sh then 1 else 2 ^ (- sh) in
  let nv := 4 * m * up in
  let nhi := (4 * m + 2) * up in
  let nlo := (if boundary then 4 * m - 1 else 4 * m - 2) * up in
  let l2 := Z.log2 nv - Z.log2 d in
  let p := find_decpt 8 ((l2 * 30103) / 100000 - 2) nv d in
  let '(c, n) := shortest 17 (Z.even m) p nv nlo nhi d 1 in
  if c =? 10 ^ n then ("1", p + 1) else (Py.str_of_int c, p).

Definition format (ds : string) (decpt : Z) : string :=
  let nd := Z.of_nat (String.length ds) in
  if (-4 <? decpt) && (decpt <=? 16) then
    if decpt <=? 0 then "0." +:+ Py.str_repeat "0" (- decpt) +:+ ds
    else if nd <=? decpt then ds +:+ Py.str_repeat "0" (decpt - nd) +:+ ".0"
    else substring 0 (Z.to_nat decpt) ds +:+ "." +:+
         substring (Z.to_nat decpt) (Z.to_nat (nd - decpt)) ds
  else
    let x := decpt - 1 in
    let mant :=
      match ds with
      | String c EmptyString => ds
      | String c rest => String c ("." +:+ rest)
      | EmptyString => ds
      end in
    mant +:+ "e" +:+ (if x <? 0 then "-" else "+") +:+
    Py.zero_pad 2 (Z.to_N (Z.abs x)).

(** [float.__repr__(x)] for a finite [x]; the JSON encoder writes the
    three non-finite values as [NaN], [Infinity] and [-Infinity]. *)
Definition json_float (x : float) : string :=
  match Prim2SF x with
  | S754_nan => "NaN"
  | S754_infinity false => "Infinity"
  | S754_infinity true => "-Infinity"
  | S754_zero false => "0.0"
  | S754_zero true => "-0.0"
  | S754_finite s m e =>
      let '(ds, decpt) := digits m e in
      (if s then "-" else "") +:+ format ds decpt
  end.

End FloatRepr.

(** ** [datetime]: timezone-aware instants in UTC

    Every timestamp the code creates carries [tzinfo=timezone.utc]
    ([datetime.now(timezone.utc)] and the fixed genesis instant), so a
    timestamp is modelled by the fields of such an object.  Two of them are
    compared field by field, most significant first. *)

Module DateTime.

Record t := mk {
  year : N; month : N; day : N;
  hour : N; minute : N; second : N; microsecond : N
}.

Definition fields (d : t) : list N :=
  [year d; month d; day d; hour d; minute d; second d; microsecond d].

Fixpoint lex_compare (a b : list N) : comparison :=
  match a, b with
  | x :: a', y :: b' =>
      match (x ?= y)%N with
      | Eq => lex_compare a' b'
      | c => c
      end
  | [], [] => Eq
  | [], _ :: _ => Lt
  | _ :: _, [] => Gt
  end.

Definition compare (a b : t) : comparison := lex_compare (fields a) (fields b).

(** [a <= b] *)
Definition leb (a b : t) : bool :=
  match compare a b with Gt => false | _ => true end.

(** [a < b] *)
Definition ltb (a b : t) : bool :=
  match compare a b with Lt => true | _ => false end.

(** [d.isoformat()]: the fraction of a second is printed only when the
    microsecond field is not zero. *)
Definition isoformat (d : t) : string :=
  Py.zero_pad 4 (year d) +:+ "-" +:+ Py.zero_pad 2 (month d) +:+ "-" +:+
  Py.zero_pad 2 (day d) +:+ "T" +:+ Py.zero_pad 2 (hour d) +:+ ":" +:+
  Py.zero_pad 2 (minute d) +:+ ":" +:+ Py.zero_pad 2 (second d) +:+
  (if (microsecond d =? 0)%N then "" else "." +:+ Py.zero_pad 6 (microsecond d)) +:+
  "+00:00".

End DateTime.

(** ** Amounts

    The code computes on amounts with Python floats.  The operations it uses
    are gathered in a class; [float_amount] is the binary64 arithmetic of
    the code. *)

Class Amount (A : Type) := {
  amt_zero : A;                 (* 0.0 *)
  amt_eps : A;                  (* 1e-9 *)
  amt_of_int : Z -> A;          (* an integral literal such as 5000.0 *)
  amt_add : A -> A -> A;
  amt_sub : A -> A -> A;
  amt_ltb : A -> A -> bool;
  amt_leb : A -> A -> bool;
  amt_json : A -> string        (* the text json.dumps writes for it *)
}.

Definition float_of_int (z : Z) : float :=
  match z with
  | Z0 => 0%float
  | Zpos _ => PrimFloat.of_uint63 (Uint63.of_Z z)
  | Zneg _ => (- PrimFloat.of_uint63 (Uint63.of_Z (- z)))%float
  end.

(** The arithmetic of the code: IEEE 754 binary64, round to nearest even. *)
#[export] Instance float_amount : Amount float := {
  amt_zero := 0%float;
  amt_eps := 0x1.12e0be826d695p-30%float;
  amt_of_int := float_of_int;
  amt_add := PrimFloat.add;
  amt_sub := PrimFloat.sub;
  amt_ltb := PrimFloat.ltb;
  amt_leb := PrimFloat.leb;
  amt_json := FloatRepr.json_float
}.

(** ** The number a float stands for

    Every finite binary64 value is a whole number of times 2^-1074, the
    spacing of the smallest floats; [value] counts them.  Infinities and NaN
    have no value.  An addition or a subtraction does not round when its
    result stands for the sum or the difference of the numbers its operands
    stand for. *)

Module Exact.

Definition value (x : float) : option Z :=
  match Prim2SF x with
  | S754_zero _ => Some 0
  | S754_finite s m e =>
      if -1074 <=? e then Some ((if s then -1 else 1) * (Z.pos m * 2 ^ (e + 1074)))
      else None
  | _ => None
  end.

Definition units (x : float) : Z := default 0 (value x).

(** [x + y] is the sum of [x] and [y]. *)
Definition add_exact (x y : float) : bool :=
  match value x, value y, value (x + y) with
  | Some vx, Some vy, Some v => v =? vx + vy
  | _, _, _ => false
  end.

(** [x - y] is the difference of [x] and [y]. *)
Definition sub_exact (x y : float) : bool :=
  match value x, value y, value (x - y) with
  | Some vx, Some vy, Some v => v =? vx - vy
  | _, _, _ => false
  end.

End Exact.

(** ** [json.dumps(..., ensure_ascii=False, sort_keys=True)] *)

Module Json.

Definition quote : string := String "034"%char EmptyString.
Definition backslash : string := String "092"%char EmptyString.

(** One character of a string literal: the quote, the backslash and the
    control characters are escaped, everything else is copied. *)
Definition escape_char (c : ascii) : string :=
  let n := N_of_ascii c in
  if (n =? 34)%N then backslash +:+ quote
  else if (n =? 92)%N then backslash +:+ backslash
  else if (n =? 10)%N then backslash +:+ "n"
  else if (n =? 13)%N then backslash +:+ "r"
  else if (n =? 9)%N then backslash +:+ "t"
  else if (n =? 8)%N then backslash +:+ "b"
  else if (n =? 12)%N then backslash +:+ "f"
  else if (n <? 32)%N then backslash +:+ "u00" +:+ SHA256.hex_digits 2 n
  else String c EmptyString.

Fixpoint escape (s : string) : string :=
  match s with
  | EmptyString => EmptyString
  | String c rest => escape_char c +:+ escape rest
  end.

Definition dumps_str (s : string) : string := quote +:+ escape s +:+ quote.

Fixpoint join (sep : string) (l : list string) : string :=
  match l with
  | [] => ""
  | [x] => x
  | x :: rest => x +:+ sep +:+ join sep rest
  end.

Section Values.
Context {A : Type} `{Amount A}.

(** The values found in a transaction record. *)
Inductive value := Str (s : string) | Num (a : A).

Definition dumps_value (v : value) : string :=
  match v with
  | Str s => dumps_str s
  | Num a => amt_json a
  end.

(** A Python [dict] with string keys: its items in insertion order. *)
Definition dict := list (string * value).

Definition key_le (x y : string * value) : Prop := String.le (fst x) (fst y).

#[export] Instance key_le_dec : RelDecision key_le.
Proof. intros x y. unfold key_le. apply _. Defined.

(** [sorted(d.items())] *)
Definition sorted_items (d : dict) : list (string * value) :=
  merge_sort key_le d.

Definition dumps_item (kv : string * value) : string :=
  dumps_str (fst kv) +:+ ": " +:+ dumps_value (snd kv).

Definition dumps_dict (d : dict) : string :=
  "{" +:+ join ", " (map dumps_item (sorted_items d)) +:+ "}".

Definition dumps_list (l : list dict) : string :=
  "[" +:+ join ", " (map dumps_dict l) +:+ "]".
End Values.

Arguments value A : clear implicits.
Arguments dict A : clear implicits.

End Json.

(** ** Transactions: the records [{"from": ..., "to": ..., "amount": ...}] *)

Record Transaction (A : Type) := mkTx {
  tx_from : string;
  tx_to : string;
  tx_amount : A
}.
Arguments mkTx {A}.
Arguments tx_from {A}.
Arguments tx_to {A}.
Arguments tx_amount {A}.

Definition SYSTEM : string := "SYSTEM".

Section TransactionJson.
Context {A : Type} `{Amount A}.

(** The dict of a transaction, its keys in the order the code writes them. *)
Definition tx_dict (tx : Transaction A) : Json.dict A :=
  [("from", Json.Str (tx_from tx)); ("to", Json.Str (tx_to tx));
   ("amount", Json.Num (tx_amount tx))].

(** [json.dumps(tx, sort_keys=True, ensure_ascii=False)] *)
Definition dumps_tx (tx : Transaction A) : string := Json.dumps_dict (tx_dict tx).

(** [json.dumps(transactions, ensure_ascii=False, sort_keys=True)] *)
Definition dumps_txs (txs : list (Transaction A)) : string :=
  Json.dumps_list (map tx_dict txs).
End TransactionJson.

(** ** class Block *)

Module Block.
Section Block.
Context {A : Type} `{Amount A}.

Record t := mk {
  index : Z;
  previous_hash : string;
  timestamp : DateTime.t;
  transactions : list (Transaction A);
  nonce : Z;
  hash : string
}.

(** The string that is hashed,
    [f"{index}{previous_hash}{ts_str}{tx_str}{nonce}"], where [tx_str] is
    the JSON text of the list of transaction dicts. *)
Definition block_string (index : Z) (previous_hash : string)
    (timestamp : DateTime.t) (transactions : list (Json.dict A)) (nonce : Z) : string :=
  Py.str_of_int index +:+ previous_hash +:+ DateTime.isoformat timestamp +:+
  Json.dumps_list transactions +:+ Py.str_of_int nonce.

Definition hash_of (index : Z) (previous_hash : string)
    (timestamp : DateTime.t) (transactions : list (Json.dict A)) (nonce : Z) : string :=
  SHA256.hexdigest (block_string index previous_hash timestamp transactions nonce).

Definition calculate_hash (b : t) : string :=
  hash_of (index b) (previous_hash b) (timestamp b)
          (map tx_dict (transactions b)) (nonce b).

(** [Block(index, previous_hash, transactions, timestamp)].  [timestamp]
    is the argument of the caller when there is one, and the reading of
    the clock [datetime.now(timezone.utc)] otherwise. *)
Definition init (index : Z) (previous_hash : string)
    (transactions : list (Transaction A)) (timestamp : DateTime.t) : t :=
  let b := mk index previous_hash timestamp transactions 0 "" in
  mk index previous_hash timestamp transactions 0 (calculate_hash b).

Definition set_nonce (n : Z) (b : t) : t :=
  mk (index b) (previous_hash b) (timestamp b) (transactions b) n (hash b).

Definition set_hash (h : string) (b : t) : t :=
  mk (index b) (previous_hash b) (timestamp b) (transactions b) (nonce b) h.

(** The test of the [while] loop negated: [self.hash[:difficulty] == target]. *)
Definition meets_target (difficulty : Z) (b : t) : bool :=
  String.eqb (Py.str_prefix difficulty (hash b)) (Py.str_repeat "0" difficulty).

(** One turn of the loop. *)
Definition next_nonce (b : t) : t :=
  let b1 := set_nonce (nonce b + 1) b in
  set_hash (calculate_hash b1) b1.

(** [mine_block(difficulty)].  The loop of the code has no bound; here
    it gives up with [None] after [fuel] turns. *)
Fixpoint mine_block (fuel : nat) (difficulty : Z) (b : t) : option t :=
  if meets_target difficulty b then Some b
  else
    match fuel with
    | O => None
    | S fuel' => mine_block fuel' difficulty (next_nonce b)
    end.
End Block.

Arguments t A : clear implicits.
End Block.

(** ** class Blockchain *)

(** The messages of the [ValueError]s the ledger raises. *)
Inductive message :=
| Missing_field (r : string)      (* a required field is absent *)
| Empty_address                   (* an address is blank *)
| Non_positive_amount             (* the amount is not positive *)
| Insufficient_funds              (* the sender cannot pay *)
| Empty_miner_address
| Empty_node_address.

Inductive exn :=
| ValueError (m : message)
| IndexError.

(** The taxonomy of the specification. *)
Inductive error_kind := InvalidInput | InsufficientFunds.

Definition kind_of (m : message) : error_kind :=
  match m with
  | Insufficient_funds => InsufficientFunds
  | _ => InvalidInput
  end.

Inductive outcome (X : Type) :=
| Return (x : X)
| Raise (e : exn).
Arguments Return {X}.
Arguments Raise {X}.

Module Blockchain.
Section Blockchain.
Context {A : Type} `{Amount A}.

Record t := mk {
  difficulty : Z;
  mining_reward : A;
  block_capacity : Z;
  chain : list (Block.t A);
  mempool : list (Transaction A);
  nodes : gset string
}.

Definition set_chain (c : list (Block.t A)) (self : t) : t :=
  mk (difficulty self) (mining_reward self) (block_capacity self) c
     (mempool self) (nodes self).

Definition set_mempool (m : list (Transaction A)) (self : t) : t :=
  mk (difficulty self) (mining_reward self) (block_capacity self) (chain self)
     m (nodes self).

Definition set_nodes (n : gset string) (self : t) : t :=
  mk (difficulty self) (mining_reward self) (block_capacity self) (chain self)
     (mempool self) n.

Definition fixed_ts : DateTime.t := DateTime.mk 2025 1 1 0 0 0 0.

Definition genesis_tx : Transaction A := mkTx SYSTEM "genesis" (amt_of_int 5000).

Definition create_genesis_block : Block.t A :=
  Block.init 0 "0" [genesis_tx] fixed_ts.

(** [Blockchain(difficulty, mining_reward, block_capacity)] *)
Definition init (difficulty : Z) (mining_reward : A) (block_capacity : Z) : t :=
  mk difficulty mining_reward block_capacity [create_genesis_block] [] ∅.

(** [Blockchain()] with the default arguments. *)
Definition fresh : t := init 3 (amt_of_int 50) 100.

(** Each method returns its result, or the exception it raises, together
    with the state of the ledger when it ends. *)
Definition register_node (address : string) (self : t) : outcome unit * t :=
  if Py.is_blank address then (Raise (ValueError Empty_node_address), self)
  else (Return tt, set_nodes ({[address]} ∪ nodes self) self).

(** [self.chain[-1]] *)
Definition get_latest_block (self : t) : option (Block.t A) := last (chain self).

(** [get_balance(address)]: one transaction, then one block, then the chain. *)
Definition balance_tx (address : string) (balance : A) (tx : Transaction A) : A :=
  let balance :=
    if bool_decide (tx_from tx = address) && negb (bool_decide (tx_from tx = SYSTEM))
    then amt_sub balance (tx_amount tx) else balance in
  if bool_decide (tx_to tx = address) then amt_add balance (tx_amount tx)
  else balance.

Definition balance_block (address : string) (balance : A) (block : Block.t A) : A :=
  fold_left (balance_tx address) (Block.transactions block) balance.

Definition get_balance (self : t) (address : string) : A :=
  fold_left (balance_block address) (chain self) amt_zero.

(** A request as [add_transaction] receives it: a dict in which each of
    the three fields may be absent. *)
Record request := mkReq {
  req_from : option string;
  req_to : option string;
  req_amount : option A
}.

(** [sum(t["amount"] for t in self.mempool if t["from"] == sender)] *)
Definition pending_out (self : t) (sender : string) : A :=
  fold_left amt_add
    (map tx_amount (filter (fun t => tx_from t = sender) (mempool self)))
    amt_zero.

Definition add_transaction (tx : request) (self : t) : outcome unit * t :=
  match req_from tx with
  | None => (Raise (ValueError (Missing_field "from")), self)
  | Some sender =>
  match req_to tx with
  | None => (Raise (ValueError (Missing_field "to")), self)
  | Some recipient =>
  match req_amount tx with
  | None => (Raise (ValueError (Missing_field "amount")), self)
  | Some amount =>
      if Py.is_blank sender || Py.is_blank recipient
      then (Raise (ValueError Empty_address), self)
      else if amt_leb amount amt_zero
      then (Raise (ValueError Non_positive_amount), self)
      else if negb (bool_decide (sender = SYSTEM))
              && amt_ltb (amt_sub (get_balance self sender) (pending_out self sender))
                         (amt_sub amount amt_eps)
      then (Raise (ValueError Insufficient_funds), self)
      else (Return tt,
            set_mempool (mempool self ++ [mkTx sender recipient amount]) self)
  end end end.

(** The set [included] of [mine_block]: the serialized transactions of
    the block whose sender is not SYSTEM. *)
Definition included (txs : list (Transaction A)) : gset string :=
  list_to_set (map dumps_tx (filter (fun t => tx_from t ≠ SYSTEM) txs)).

(** The mempool after the block is appended. *)
Definition prune (inc : gset string) (pool : list (Transaction A)) :
    list (Transaction A) :=
  filter (fun t => dumps_tx t ∉ inc) pool.

(** [mine_block(miner_address)].  [now] is the reading of the clock when
    the block is created; [None] when the proof-of-work search runs out
    of [fuel]. *)
Definition mine_block (fuel : nat) (now : DateTime.t) (miner_address : string)
    (self : t) : option (outcome (Block.t A) * t) :=
  if Py.is_blank miner_address
  then Some (Raise (ValueError Empty_miner_address), self)
  else
    let txs := Py.list_prefix (block_capacity self) (mempool self) in
    let reward_tx := mkTx SYSTEM miner_address (mining_reward self) in
    let txs := txs ++ [reward_tx] in
    match get_latest_block self with
    | None => Some (Raise IndexError, self)
    | Some latest =>
        let new_block :=
          Block.init (Z.of_nat (length (chain self))) (Block.hash latest) txs now in
        match Block.mine_block fuel (difficulty self) new_block with
        | None => None
        | Some new_block =>
            let self := set_chain (chain self ++ [new_block]) self in
            let self := set_mempool (prune (included txs) (mempool self)) self in
            Some (Return new_block, self)
        end
    end.

(** The replay of one transaction on the running balances of
    [is_chain_valid]; [None] stands for [return False]. *)
Definition replay_tx (balances : gmap string A) (tx : Transaction A) :
    option (gmap string A) :=
  let sender := tx_from tx in
  let recipient := tx_to tx in
  let amount := tx_amount tx in
  if amt_ltb amount amt_zero then None
  else
    let debited :=
      if bool_decide (sender = SYSTEM) then Some balances
      else
        let balances := <[sender := default amt_zero (balances !! sender)]> balances in
        let current := default amt_zero (balances !! sender) in
        if amt_ltb current (amt_sub amount amt_eps) then None
        else Some (<[sender := amt_sub current amount]> balances) in
    match debited with
    | None => None
    | Some balances =>
        Some (<[recipient := amt_add (default amt_zero (balances !! recipient)) amount]>
                balances)
    end.

Fixpoint replay_txs (balances : gmap string A) (txs : list (Transaction A)) :
    option (gmap string A) :=
  match txs with
  | [] => Some balances
  | tx :: rest =>
      match replay_tx balances tx with
      | None => None
      | Some balances => replay_txs balances rest
      end
  end.

(** The checks on the block at position [i] of [chain] that do not read
    the balances.  For [i > 0] the code reads [chain[i-1]], which is
    in range whenever the loop is at position [i]. *)
Definition block_checks (chain : list (Block.t A)) (i : nat) (block : Block.t A) : bool :=
  if negb (String.eqb (Block.hash block) (Block.calculate_hash block)) then false
  else if (0 <? i)%nat then
    match chain !! (i - 1)%nat with
    | Some prev =>
        negb (negb (String.eqb (Block.previous_hash block) (Block.hash prev))
              || negb (Block.index block =? Z.of_nat i)
              || DateTime.leb (Block.timestamp block) (Block.timestamp prev))
    | None => false
    end
  else true.

(** The loop [for i, block in enumerate(chain)], from position [i] on;
    [rest] is what is left of the chain. *)
Fixpoint valid_from (chain : list (Block.t A)) (i : nat) (rest : list (Block.t A))
    (balances : gmap string A) : bool :=
  match rest with
  | [] => true
  | block :: rest' =>
      if block_checks chain i block then
        match replay_txs balances (Block.transactions block) with
        | None => false
        | Some balances => valid_from chain (S i) rest' balances
        end
      else false
  end.

(** [chain or self.chain]: an absent or empty argument stands for the
    chain of the ledger. *)
Definition chain_or_own (chain : option (list (Block.t A))) (self : t) :
    list (Block.t A) :=
  match chain with
  | None | Some [] => Blockchain.chain self
  | Some c => c
  end.

Definition is_chain_valid (chain : option (list (Block.t A))) (self : t) : bool :=
  let chain := chain_or_own chain self in
  valid_from chain 0 chain ∅.

Definition replace_chain (new_chain : list (Block.t A)) (self : t) : bool * t :=
  if (length (chain self) <? length new_chain)%nat
     && is_chain_valid (Some new_chain) self
  then (true, set_chain new_chain self)
  else (false, self).
End Blockchain.

Arguments t A : clear implicits.
Arguments request A : clear implicits.
End Blockchain.

(** * Notions of the specification *)

Section Notions.
Context {A : Type} `{Amount A}.

(** What the proof-of-work search leaves in place. *)
Definition same_content (b b' : Block.t A) : Prop :=
  Block.index b' = Block.index b /\
  Block.previous_hash b' = Block.previous_hash b /\
  Block.timestamp b' = Block.timestamp b /\
  Block.transactions b' = Block.transactions b.

(** One successful operation of the ledger.  [clock_ok latest now] is what
    is assumed of the clock reading [now] taken when a block is created on
    top of a block stamped [latest]. *)
Variant step (clock_ok : DateTime.t -> DateTime.t -> Prop) :
    Blockchain.t A -> Blockchain.t A -> Prop :=
| step_add tx self self' :
    Blockchain.add_transaction tx self = (Return tt, self') ->
    step clock_ok self self'
| step_mine fuel now miner latest block self self' :
    Blockchain.get_latest_block self = Some latest ->
    clock_ok (Block.timestamp latest) now ->
    Blockchain.mine_block fuel now miner self = Some (Return block, self') ->
    step clock_ok self self'.

(** The states reached from [start] by successful operations only. *)
Inductive reachable (clock_ok : DateTime.t -> DateTime.t -> Prop)
    (start : Blockchain.t A) : Blockchain.t A -> Prop :=
| reach_start : reachable clock_ok start start
| reach_step self self' :
    reachable clock_ok start self -> step clock_ok self self' ->
    reachable clock_ok start self'.

(** The states reached from [start] by mining only. *)
Inductive mined (clock_ok : DateTime.t -> DateTime.t -> Prop)
    (start : Blockchain.t A) : Blockchain.t A -> Prop :=
| mined_start : mined clock_ok start start
| mined_step fuel now miner latest block self self' :
    mined clock_ok start self ->
    Blockchain.get_latest_block self = Some latest ->
    clock_ok (Block.timestamp latest) now ->
    Blockchain.mine_block fuel now miner self = Some (Return block, self') ->
    mined clock_ok start self'.

(** No assumption on the clock. *)
Definition any_clock (latest now : DateTime.t) : Prop := True.

(** The clock reads later than the stamp of the head of the chain. *)
Definition advancing_clock (latest now : DateTime.t) : Prop :=
  DateTime.ltb latest now = true.

(** All transactions of a chain, in order. *)
Definition chain_txs (chain : list (Block.t A)) : list (Transaction A) :=
  flat_map Block.transactions chain.

(** The addresses that appear in some transaction of the chain, each once. *)
Definition addresses (chain : list (Block.t A)) : list string :=
  remove_dups (flat_map (fun tx => [tx_from tx; tx_to tx]) (chain_txs chain)).

(** The sum of the balances of the addresses [addrs], taken in that order. *)
Definition total_balance (self : Blockchain.t A) (addrs : list string) : A :=
  fold_left amt_add (map (Blockchain.get_balance self) addrs) amt_zero.

(** The sum of the amounts of the transactions sent by SYSTEM. *)
Definition system_issued (self : Blockchain.t A) : A :=
  fold_left amt_add
    (map tx_amount
         (filter (fun tx => tx_from tx = SYSTEM) (chain_txs (Blockchain.chain self))))
    amt_zero.

(** The loop of [is_chain_valid] from position [i] on, with the balances
    it ends on; [None] stands for [return False]. *)
Fixpoint run_from (chain : list (Block.t A)) (i : nat) (rest : list (Block.t A))
    (balances : gmap string A) : option (gmap string A) :=
  match rest with
  | [] => Some balances
  | block :: rest' =>
      if Blockchain.block_checks chain i block then
        match Blockchain.replay_txs balances (Block.transactions block) with
        | None => None
        | Some balances => run_from chain (S i) rest' balances
        end
      else None
  end.

(** Sums over the accounts. *)
Definition over (addrs : list string) (f : string -> Z) : Z :=
  fold_right (fun a acc => f a + acc) 0 addrs.

(** The invariant of a ledger on which blocks are mined and nothing is
    submitted. *)
Definition idle (self : Blockchain.t A) : Prop :=
  Blockchain.mempool self = [] /\
  (exists balances,
      run_from (Blockchain.chain self) 0 (Blockchain.chain self) ∅ = Some balances) /\
  amt_ltb (Blockchain.mining_reward self) amt_zero = false.
End Notions.

(** ** Computations that do not round *)

(** Debit and credit of one transaction on the account [a], and what
    SYSTEM issues with it, as numbers. *)
Definition debit (a : string) (tx : Transaction float) : Z :=
  if bool_decide (tx_from tx = a) && negb (bool_decide (tx_from tx = SYSTEM))
  then Exact.units (tx_amount tx) else 0.

Definition credit (a : string) (tx : Transaction float) : Z :=
  if bool_decide (tx_to tx = a) then Exact.units (tx_amount tx) else 0.

Definition net (a : string) (txs : list (Transaction float)) : Z :=
  fold_right (fun tx acc => credit a tx - debit a tx + acc) 0 txs.

Definition issue (tx : Transaction float) : Z :=
  if bool_decide (tx_from tx = SYSTEM) then Exact.units (tx_amount tx) else 0.

(** A fold [for x in l: z = step(z, x)] in which every step passes the
    test [ok] on the value it starts from. *)
Fixpoint checked {X} (ok : float -> X -> bool) (step : float -> X -> float)
    (l : list X) (z : float) : bool :=
  match l with
  | [] => true
  | x :: rest => ok z x && checked ok step rest (step z x)
  end.

(** Neither the subtraction nor the addition that [get_balance(address)]
    performs for [tx] on the running balance rounds. *)
Definition balance_tx_exact (address : string) (balance : float)
    (tx : Transaction float) : bool :=
  let debited :=
    bool_decide (tx_from tx = address) && negb (bool_decide (tx_from tx = SYSTEM)) in
  (if debited then Exact.sub_exact balance (tx_amount tx) else true)
  && (if bool_decide (tx_to tx = address)
      then Exact.add_exact
             (if debited then (balance - tx_amount tx)%float else balance)
             (tx_amount tx)
      else true).

(** No operation of [get_balance(address)] rounds. *)
Definition get_balance_exact (self : Blockchain.t float) (address : string) : bool :=
  checked (balance_tx_exact address) (Blockchain.balance_tx address)
          (chain_txs (Blockchain.chain self)) 0%float.

(** No addition of [sum(l)] rounds. *)
Definition sum_exact (l : list float) : bool :=
  checked Exact.add_exact PrimFloat.add l 0%float.

(** No operation rounds in the balances of the addresses [addrs], in their
    sum taken in that order, and in the sum of what SYSTEM issued. *)
Definition unrounded (self : Blockchain.t float) (addrs : list string) : bool :=
  forallb (get_balance_exact self) addrs
  && sum_exact (map (Blockchain.get_balance self) addrs)
  && sum_exact
       (map tx_amount
            (filter (fun tx => tx_from tx = SYSTEM) (chain_txs (Blockchain.chain self)))).

(** * Scenarios on the arithmetic of the code *)

Module Scenario.

Definition transfer (sender recipient : string) (amount : float) :
    Blockchain.request float :=
  Blockchain.mkReq (Some sender) (Some recipient) (Some amount).

Definition state_of {X} (r : option (outcome X * Blockchain.t float))
    (otherwise : Blockchain.t float) : Blockchain.t float :=
  match r with Some (_, self) => self | None => otherwise end.

Definition genesis : Block.t float := Blockchain.create_genesis_block.
Definition fresh : Blockchain.t float := Blockchain.fresh.

Definition t1 : DateTime.t := DateTime.mk 2026 11 3 8 48 5 1234.
Definition t2 : DateTime.t := DateTime.mk 2026 11 3 8 49 0 0.

(** ** A chain made by the ledger that the ledger rejects *)
Definition pay_a := transfer "genesis" "a" 0x1.999999999999ap-4%float.   (* 0.1 *)
Definition pay_b := transfer "genesis" "b" 0x1.3333333333333p-2%float.   (* 0.3 *)
Definition pay_c := transfer "genesis" "c" 0x1.3879999999de6p+12%float.  (* 4999.600000001001 *)

Definition drift1 := Eval vm_compute in snd (Blockchain.add_transaction pay_a fresh).
Definition drift2 := Eval vm_compute in snd (Blockchain.add_transaction pay_b drift1).
Definition drift3 := Eval vm_compute in snd (Blockchain.add_transaction pay_c drift2).
Definition drift4 := Eval vm_compute in state_of (Blockchain.mine_block 1000 t1 "heidi" drift3) drift3.

(** ** A block stamped by a clock that reads the genesis instant *)
Definition stalled := Eval vm_compute in
  state_of (Blockchain.mine_block 1000 Blockchain.fixed_ts "m" fresh) fresh.

(** ** A block mined on a fresh ledger and nothing else *)
Definition mined1 := Eval vm_compute in state_of (Blockchain.mine_block 1000 t1 "erin" fresh) fresh.

(** ** A duplicate beyond the capacity of the block *)
Definition small : Blockchain.t float := Blockchain.init 3 50%float 1.
Definition pay_alice := transfer "genesis" "alice" 1%float.
Definition twice1 := Eval vm_compute in snd (Blockchain.add_transaction pay_alice small).
Definition twice2 := Eval vm_compute in snd (Blockchain.add_transaction pay_alice twice1).
Definition twice3 := Eval vm_compute in Blockchain.mine_block 1000 t1 "node1" twice2.
Definition settled := Eval vm_compute in state_of twice3 twice2.

(** ** A transaction sent by SYSTEM through [add_transaction] *)
Definition mint := transfer "SYSTEM" "carol" 7%float.
Definition minted1 := Eval vm_compute in snd (Blockchain.add_transaction mint fresh).
Definition minted2 := Eval vm_compute in Blockchain.mine_block 1000 t1 "node2" minted1.

(** ** Balances that do not add up *)
Definition fund := transfer "SYSTEM" "a" 5e15%float.
Definition pay_ab := transfer "a" "b" 1%float.
Definition inflate1 := Eval vm_compute in snd (Blockchain.add_transaction fund fresh).
Definition inflate2 := Eval vm_compute in state_of (Blockchain.mine_block 1000 t1 "trent" inflate1) inflate1.
Definition inflate3 := Eval vm_compute in snd (Blockchain.add_transaction pay_ab inflate2).
Definition inflate4 := Eval vm_compute in snd (Blockchain.add_transaction pay_ab inflate3).
Definition inflate5 := Eval vm_compute in state_of (Blockchain.mine_block 1000 t2 "nina" inflate4) inflate4.

(** ** The same transactions in two orders *)
Definition tx_ab : Transaction float := mkTx "a" "b" 1%float.
Definition tx_cd : Transaction float := mkTx "c" "d" 2%float.
Definition block_ab_cd : Block.t float := Block.init 1 "0" [tx_ab; tx_cd] t1.
Definition block_cd_ab : Block.t float := Block.init 1 "0" [tx_cd; tx_ab] t1.

(** ** A chain nobody mined, on another genesis block *)
Definition forged_genesis : Block.t float :=
  Block.init 0 "0" [mkTx SYSTEM "mallory" 1000000000%float] Blockchain.fixed_ts.
Definition forged_next : Block.t float :=
  Block.init 1 (Block.hash forged_genesis) [mkTx "mallory" "eve" 5%float] t1.
Definition forged_chain : list (Block.t float) := [forged_genesis; forged_next].

(** ** A block nobody mined, on the genesis block of the ledger *)
Definition unmined : Block.t float :=
  Block.init 1 (Block.hash genesis)
    [mkTx SYSTEM "mallory" 50%float] t1.
Definition unmined_chain : list (Block.t float) :=
  [genesis; unmined].

(** ** Tampered copies of that chain *)
Definition relinked : Block.t float :=
  Block.init 1 "0" [mkTx SYSTEM "mallory" 50%float] t1.
Definition backdated : Block.t float :=
  Block.init 1 (Block.hash genesis)
    [mkTx SYSTEM "mallory" 50%float] Blockchain.fixed_ts.
Definition negative : Block.t float :=
  Block.init 1 (Block.hash genesis)
    [mkTx SYSTEM "mallory" (-50)%float] t1.

End Scenario.

(** * The interchange records and the handlers of the node

    What follows is the rest of [main.py]: [Block.to_dict],
    [Block.from_dict], [Blockchain.to_dict] and the bodies of the handlers
    [receive_block] and [sync], which work on the ledger of the module.  The
    transport (Flask, [requests]) is left out.

    A record carries its timestamp as a string.  The strings that
    [isoformat] writes for an instant in UTC are read back; what
    [datetime.fromisoformat] does with any other string (another offset, a
    naive form, a form it refuses) is not described: on a record with such a
    string [from_dict] gives [Unread].  The handlers are given what the
    decoding of their input has produced, a block or a chain when
    [Block.from_dict] returned and nothing when it raised, so that they
    are described for every block, however its record was written.  As
    everywhere in this development the timestamp of a block is an instant
    in UTC. *)

(** ** [datetime.fromisoformat] on the strings [isoformat] writes

    [read] recognises the strings that [isoformat] writes for an instant in
    UTC, [YYYY-MM-DDTHH:MM:SS+00:00] with an optional [.ffffff] before the
    offset and fields in the ranges of a [datetime]; on these
    [datetime.fromisoformat] returns the instant.  Of any other string
    [fromisoformat] says [Unread]. *)

Module Iso.

Definition digit_value (c : ascii) : option N :=
  let n := N_of_ascii c in
  if ((48 <=? n) && (n <=? 57))%N then Some (n - 48)%N else None.

(** The number written by the digits of [s], after the digits read so far. *)
Fixpoint number (s : string) (acc : N) : option N :=
  match s with
  | EmptyString => Some acc
  | String c rest =>
      match digit_value c with
      | Some d => number rest (10 * acc + d)%N
      | None => None
      end
  end.

(** The first [w] characters of [s] and what follows them. *)
Fixpoint cut (w : nat) (s : string) : option (string * string) :=
  match w, s with
  | O, _ => Some (EmptyString, s)
  | S w', String c rest =>
      match cut w' rest with
      | Some (p, rest') => Some (String c p, rest')
      | None => None
      end
  | S _, EmptyString => None
  end.

(** A field of [w] digits. *)
Definition field (w : nat) (s : string) : option (N * string) :=
  match cut w s with
  | Some (p, rest) =>
      match number p 0 with
      | Some n => Some (n, rest)
      | None => None
      end
  | None => None
  end.

(** The separator [lit]. *)
Definition expect (lit : string) (s : string) : option string :=
  match cut (String.length lit) s with
  | Some (p, rest) => if String.eqb p lit then Some rest else None
  | None => None
  end.

Definition is_leap (y : N) : bool :=
  ((y mod 4 =? 0) && negb (y mod 100 =? 0) || (y mod 400 =? 0))%N.

Definition days_in_month (y m : N) : N :=
  if (m =? 2)%N then (if is_leap y then 29 else 28)%N
  else if ((m =? 4) || (m =? 6) || (m =? 9) || (m =? 11))%N then 30%N
  else 31%N.

(** The ranges that every [datetime] object satisfies. *)
Definition valid (d : DateTime.t) : bool :=
  ((1 <=? DateTime.year d) && (DateTime.year d <=? 9999)
   && (1 <=? DateTime.month d) && (DateTime.month d <=? 12)
   && (1 <=? DateTime.day d)
   && (DateTime.day d <=? days_in_month (DateTime.year d) (DateTime.month d))
   && (DateTime.hour d <? 24) && (DateTime.minute d <? 60)
   && (DateTime.second d <? 60) && (DateTime.microsecond d <? 1000000))%N.

Definition utc_offset : string := "+00:00".

Definition read (s : string) : option DateTime.t :=
  match field 4 s with None => None | Some (year, s) =>
  match expect "-" s with None => None | Some s =>
  match field 2 s with None => None | Some (month, s) =>
  match expect "-" s with None => None | Some s =>
  match field 2 s with None => None | Some (day, s) =>
  match expect "T" s with None => None | Some s =>
  match field 2 s with None => None | Some (hour, s) =>
  match expect ":" s with None => None | Some s =>
  match field 2 s with None => None | Some (minute, s) =>
  match expect ":" s with None => None | Some s =>
  match field 2 s with None => None | Some (second, s) =>
  let finish (microsecond : N) (s : string) :=
    if String.eqb s utc_offset then
      let d := DateTime.mk year month day hour minute second microsecond in
      if valid d then Some d else None
    else None in
  match expect "." s with
  | None => finish 0%N s
  | Some s' =>
      match field 6 s' with
      | Some (microsecond, s'') => finish microsecond s''
      | None => None
      end
  end
  end end end end end end end end end end end.

Inductive parsed :=
| Instant (d : DateTime.t)   (* [fromisoformat] returns this instant *)
| Unread.                    (* a string [read] does not recognise *)

Definition fromisoformat (s : string) : parsed :=
  match read s with
  | Some d => Instant d
  | None => Unread
  end.

End Iso.

(** ** [Block.to_dict], [Block.from_dict], [Blockchain.to_dict] *)

Module Wire.

Inductive error :=
| KeyError (key : string).

(** What is known of a decoding: its result, the exception it raises, or
    nothing when it meets a timestamp that [Iso.read] does not recognise. *)
Inductive reading (X : Type) :=
| Read (x : X)
| Raised (e : error)
| Unread.
Arguments Read {X}.
Arguments Raised {X}.
Arguments Unread {X}.

Section Wire.
Context {A : Type} `{Amount A}.

(** The dict of a block as it travels: each key may be absent. *)
Record block_dict := mk {
  index : option Z;
  previous_hash : option string;
  timestamp : option string;
  transactions : option (list (Transaction A));
  nonce : option Z;
  hash : option string
}.

Definition to_dict (b : Block.t A) : block_dict :=
  mk (Some (Block.index b)) (Some (Block.previous_hash b))
     (Some (DateTime.isoformat (Block.timestamp b)))
     (Some (Block.transactions b)) (Some (Block.nonce b)) (Some (Block.hash b)).

(** [from_dict(data)]: the timestamp is read first, then the block is built
    (with nonce 0 and its own hash), then the nonce and the hash of the
    record, when present, replace those of the block; an absent hash is
    recomputed once the nonce is in place. *)
Definition from_dict (data : block_dict) : reading (Block.t A) :=
  match timestamp data with
  | None => Raised (KeyError "timestamp")
  | Some text =>
      match Iso.fromisoformat text with
      | Iso.Unread => Unread
      | Iso.Instant ts =>
          match index data with
          | None => Raised (KeyError "index")
          | Some i =>
              match previous_hash data with
              | None => Raised (KeyError "previous_hash")
              | Some prev =>
                  let block := Block.init i prev (default [] (transactions data)) ts in
                  let block := Block.set_nonce (default 0 (nonce data)) block in
                  let block :=
                    Block.set_hash (default (Block.calculate_hash block) (hash data))
                                   block in
                  Read block
              end
          end
      end
  end.

(** [Blockchain.to_dict] *)
Definition chain_to_dict (self : Blockchain.t A) : list block_dict :=
  map to_dict (Blockchain.chain self).

(** [[Block.from_dict(b) for b in records]]: the first failure ends it. *)
Fixpoint chain_from_dict (records : list block_dict) : reading (list (Block.t A)) :=
  match records with
  | [] => Read []
  | data :: rest =>
      match from_dict data with
      | Unread => Unread
      | Raised e => Raised e
      | Read block =>
          match chain_from_dict rest with
          | Read blocks => Read (block :: blocks)
          | Raised e => Raised e
          | Unread => Unread
          end
      end
  end.
End Wire.

Arguments block_dict A : clear implicits.
End Wire.

(** ** The handlers [receive_block] and [sync] *)

Module Node.
Section Node.
Context {A : Type} `{Amount A}.

(** [receive_block].  [decoded] is what [Block.from_dict(data)] gave: the
    block, or [None] when it raised.  [true] stands for the answer 200,
    [false] for 400; every exception ends in 400. *)
Definition receive_block (decoded : option (Block.t A)) (self : Blockchain.t A) :
    bool * Blockchain.t A :=
  match decoded with
  | None => (false, self)
  | Some block =>
      match Blockchain.get_latest_block self with
      | None => (false, self)
      | Some latest =>
          if String.eqb (Block.previous_hash block) (Block.hash latest)
             && Blockchain.is_chain_valid (Some (Blockchain.chain self ++ [block])) self
          then
            let self := Blockchain.set_chain (Blockchain.chain self ++ [block]) self in
            let inc := Blockchain.included (Block.transactions block) in
            (true, Blockchain.set_mempool (Blockchain.prune inc (Blockchain.mempool self))
                                          self)
          else (false, self)
      end
  end.

(** One turn of the loop of [sync].  [answer] is what the request to the
    node and the decoding of its records gave: the chain, or [None] when
    either raised. *)
Definition visit (self : Blockchain.t A) (longest : list (Block.t A))
    (answer : option (list (Block.t A))) : list (Block.t A) :=
  match answer with
  | None => longest
  | Some chain =>
      if (length longest <? length chain)%nat
         && Blockchain.is_chain_valid (Some chain) self
      then chain else longest
  end.

(** [sync]: [answers] holds the answer of each registered node, in the
    order in which the loop visits the set.  The result is the pair
    [(replaced, length)] of the reply, with the ledger. *)
Definition sync (answers : list (option (list (Block.t A))))
    (self : Blockchain.t A) : (bool * nat) * Blockchain.t A :=
  let longest := fold_left (visit self) answers (Blockchain.chain self) in
  let '(replaced, self) := Blockchain.replace_chain longest self in
  ((replaced, length (Blockchain.chain self)), self).

(** What a peer's answer offers to [sync]: its chain, when the ledger
    finds the chain valid. *)
Definition candidate (self : Blockchain.t A)
    (answer : option (list (Block.t A))) : option (list (Block.t A)) :=
  match answer with
  | None => None
  | Some chain =>
      if Blockchain.is_chain_valid (Some chain) self then Some chain else None
  end.

(** What [add_transaction] requires of an entry before it joins the
    mempool, funds apart. *)
Definition admissible (tx : Transaction A) : Prop :=
  Py.is_blank (tx_from tx) = false /\ Py.is_blank (tx_to tx) = false /\
  amt_leb (tx_amount tx) amt_zero = false.

(** The settings of a ledger. *)
Definition settings (self : Blockchain.t A) : Z * A * Z :=
  (Blockchain.difficulty self, Blockchain.mining_reward self,
   Blockchain.block_capacity self).

(** One call on the ledger, whatever its arguments and its outcome. *)
Variant call : Blockchain.t A -> Blockchain.t A -> Prop :=
| call_register address self :
    call self (snd (Blockchain.register_node address self))
| call_add tx self :
    call self (snd (Blockchain.add_transaction tx self))
| call_mine fuel now miner self result self' :
    Blockchain.mine_block fuel now miner self = Some (result, self') ->
    call self self'
| call_replace new_chain self :
    call self (snd (Blockchain.replace_chain new_chain self))
| call_receive decoded self :
    call self (snd (receive_block decoded self))
| call_sync answers self :
    call self (snd (sync answers self)).

(** The states a ledger goes through, from [start] on. *)
Inductive history (start : Blockchain.t A) : Blockchain.t A -> Prop :=
| history_start : history start start
| history_call self self' :
    history start self -> call self self' -> history start self'.

(** The calls that create no block. *)
Variant quiet : Blockchain.t A -> Blockchain.t A -> Prop :=
| quiet_register address self :
    quiet self (snd (Blockchain.register_node address self))
| quiet_add tx self :
    quiet self (snd (Blockchain.add_transaction tx self))
| quiet_replace new_chain self :
    quiet self (snd (Blockchain.replace_chain new_chain self))
| quiet_receive decoded self :
    quiet self (snd (receive_block decoded self))
| quiet_sync answers self :
    quiet self (snd (sync answers self)).
End Node.
End Node.

(** * Further notions *)

(** The characters of a hexadecimal digest. *)
Definition is_hex (c : ascii) : bool :=
  let n := N_of_ascii c in
  ((48 <=? n) && (n <=? 57) || (97 <=? n) && (n <=? 102))%N.

Fixpoint all_hex (s : string) : bool :=
  match s with
  | EmptyString => true
  | String c rest => is_hex c && all_hex rest
  end.


(** * Scenarios between two nodes *)

Module Network.

(** The block that [mine_block] makes for "erin" on a fresh ledger. *)
Definition erin_block : Block.t float := Eval vm_compute in
  match Blockchain.mine_block 1000 Scenario.t1 "erin" Scenario.fresh with
  | Some (Return block, _) => block
  | _ => Scenario.genesis
  end.

(** The ledger that has received a block nobody mined. *)
Definition received : Blockchain.t float := Eval vm_compute in
  snd (Node.receive_block (Some Scenario.unmined) Scenario.fresh).

(** Two peers: one is a block ahead, the other cannot be reached. *)
Definition ahead : option (list (Block.t float)) :=
  Some (Blockchain.chain Scenario.mined1).
Definition silent : option (list (Block.t float)) := None.

End Network.

(** * Properties *)

(** ** Strings *)

Lemma length_str_repeat (c : ascii) (n : Z) :
  String.length (Py.str_repeat c n) = Z.to_nat n.
Proof.
  unfold Py.str_repeat. induction (Z.to_nat n) as [|k IH]; simpl; congruence.
Qed.

Lemma substring_is_prefix (n : nat) :
  forall s p : string,
    substring 0 n s = p -> String.length p = n -> exists rest, s = p +:+ rest.
Proof.
  induction n as [|n IH]; intros s p Hsub Hlen.
  - destruct p; [|discriminate]. exists s. reflexivity.
  - destruct s as [|c s]; simpl in Hsub.
    + subst p. discriminate.
    + destruct p as [|c' p]; [discriminate|].
      injection Hsub as -> Hsub. simpl in Hlen.
      destruct (IH s p Hsub) as [rest ->]; [lia|].
      exists rest. reflexivity.
Qed.

(** ** Block *)

Section BlockFacts.
Context {A : Type} `{Amount A}.
Implicit Types b : Block.t A.

Lemma calculate_hash_set_hash h b :
  Block.calculate_hash (Block.set_hash h b) = Block.calculate_hash b.
Proof. reflexivity. Qed.

Lemma init_consistent index prev txs ts :
  Block.hash (Block.init (A:=A) index prev txs ts)
  = Block.calculate_hash (Block.init index prev txs ts).
Proof. reflexivity. Qed.

Lemma next_nonce_consistent b :
  Block.hash (Block.next_nonce b) = Block.calculate_hash (Block.next_nonce b).
Proof. reflexivity. Qed.

Lemma mine_block_inv fuel difficulty :
  forall b b',
    Block.mine_block fuel difficulty b = Some b' ->
    Block.meets_target difficulty b' = true /\
    same_content b b' /\
    (b' = b \/ Block.hash b' = Block.calculate_hash b').
Proof.
  induction fuel as [|fuel IH]; intros b b' Hm; simpl in Hm;
    destruct (Block.meets_target difficulty b) eqn:Ht.
  - injection Hm as <-. unfold same_content. repeat split; auto.
  - discriminate.
  - injection Hm as <-. unfold same_content. repeat split; auto.
  - destruct (IH _ _ Hm) as (Ht' & (Hi & Hp & Hs & Hx) & Hc).
    split; [exact Ht'|]. split; [split; [|split; [|split]]; assumption|].
    right. destruct Hc as [-> | Hc]; [apply next_nonce_consistent | exact Hc].
Qed.

Lemma meets_target_zeros difficulty b :
  Block.meets_target difficulty b = true -> 0 <= difficulty ->
  exists rest, Block.hash b = Py.str_repeat "0" difficulty +:+ rest.
Proof.
  unfold Block.meets_target, Py.str_prefix. intros Heq Hd.
  apply String.eqb_eq in Heq.
  destruct (Z.leb_spec 0 difficulty) as [_|]; [|lia].
  apply (substring_is_prefix (Z.to_nat difficulty)); [exact Heq|].
  apply length_str_repeat.
Qed.

(** The search ends as soon as some nonce meets the target: when the
    block reached after [k] turns meets it, [k] turns of fuel are enough. *)
Lemma mine_block_terminates difficulty k :
  forall b fuel,
    Block.meets_target difficulty (Nat.iter k Block.next_nonce b) = true ->
    (k <= fuel)%nat ->
    exists b', Block.mine_block fuel difficulty b = Some b'.
Proof.
  induction k as [|k IH]; intros b fuel Hk Hf.
  - simpl in Hk. destruct fuel; simpl; rewrite Hk; eauto.
  - destruct fuel as [|fuel]; [lia|]. simpl.
    destruct (Block.meets_target difficulty b); [eauto|].
    apply IH; [|lia].
    rewrite Nat.iter_succ_r in Hk. exact Hk.
Qed.
End BlockFacts.

(** C1: right after construction the stored hash of a block equals the hash
    recomputed from its fields; and when [mine_block difficulty] returns on
    a block whose stored hash is consistent (as that of a constructed block
    is), the stored hash of the result equals the recomputed hash and its
    first [difficulty] characters are all '0'. *)
Theorem block_hash_consistent {A : Type} `{Amount A} :
  (forall index prev txs ts,
      Block.hash (Block.init (A:=A) index prev txs ts)
      = Block.calculate_hash (Block.init index prev txs ts)) /\
  (forall fuel difficulty (b b' : Block.t A),
      Block.hash b = Block.calculate_hash b ->
      Block.mine_block fuel difficulty b = Some b' ->
      Block.hash b' = Block.calculate_hash b' /\
      (0 <= difficulty ->
       exists rest, Block.hash b' = Py.str_repeat "0" difficulty +:+ rest)).
Proof.
  split; [apply init_consistent|].
  intros fuel difficulty b b' Hb Hm.
  destruct (mine_block_inv _ _ _ _ Hm) as (Ht & _ & Hc).
  split.
  - destruct Hc as [-> | Hc]; assumption.
  - intros Hd. apply meets_target_zeros; assumption.
Qed.

Lemma block_hash_consistent_witness :
  let b := Blockchain.create_genesis_block (A:=float) in
  Block.hash b = Block.calculate_hash b /\
  exists b', Block.mine_block 2000 2 b = Some b' /\
    Block.hash b' = Block.calculate_hash b' /\
    exists rest, Block.hash b' = "00" +:+ rest.
Proof.
  intros b.
  assert (Hb : Block.hash b = Block.calculate_hash b) by apply init_consistent.
  split; [exact Hb|].
  eassert (Hm : Block.mine_block 2000 2 b = Some _) by (vm_compute; reflexivity).
  destruct (proj2 block_hash_consistent _ _ _ _ Hb Hm) as [Hc Hz].
  eexists; split; [exact Hm|].
  split; [exact Hc|]. apply Hz. lia.
Defined.

(** ** Timestamps *)

Lemma lex_compare_antisym (a : list N) :
  forall b, DateTime.lex_compare b a = CompOpp (DateTime.lex_compare a b).
Proof.
  induction a as [|x a IH]; intros [|y b]; simpl; try reflexivity.
  rewrite (N.compare_antisym x y).
  destruct (x ?= y)%N; simpl; auto.
Qed.

(** [b] is not later than [a] exactly when [a <= b] fails to be strict. *)
Lemma not_ltb_leb (a b : DateTime.t) :
  DateTime.ltb a b = false <-> DateTime.leb b a = true.
Proof.
  unfold DateTime.ltb, DateTime.leb, DateTime.compare.
  rewrite (lex_compare_antisym (DateTime.fields a) (DateTime.fields b)).
  destruct (DateTime.lex_compare (DateTime.fields a) (DateTime.fields b));
    simpl; split; congruence.
Qed.

(** ** Validation *)

Section ValidationFacts.
Context {A : Type} `{Amount A}.
Implicit Types (chain rest : list (Block.t A)) (block prev : Block.t A).
Implicit Types (balances : gmap string A) (tx : Transaction A).

Lemma replay_tx_nonneg balances tx balances' :
  Blockchain.replay_tx balances tx = Some balances' ->
  amt_ltb (tx_amount tx) amt_zero = false.
Proof.
  unfold Blockchain.replay_tx.
  destruct (amt_ltb (tx_amount tx) amt_zero); [discriminate | reflexivity].
Qed.

Lemma replay_txs_nonneg txs :
  forall balances balances',
    Blockchain.replay_txs balances txs = Some balances' ->
    forall tx, tx ∈ txs -> amt_ltb (tx_amount tx) amt_zero = false.
Proof.
  induction txs as [|t txs IH]; intros balances balances' Hr tx Hin.
  - inversion Hin.
  - simpl in Hr.
    destruct (Blockchain.replay_tx balances t) as [b1|] eqn:Ht; [|discriminate].
    apply elem_of_cons in Hin as [-> | Hin].
    + eapply replay_tx_nonneg; eassumption.
    + eapply IH; eassumption.
Qed.

(** A run of the loop that answers [True] has passed every check on
    every block it met. *)
Lemma valid_from_inv chain rest :
  forall i balances,
    Blockchain.valid_from chain i rest balances = true ->
    forall j block,
      rest !! j = Some block ->
      Blockchain.block_checks chain (i + j) block = true /\
      forall tx, tx ∈ Block.transactions block ->
                 amt_ltb (tx_amount tx) amt_zero = false.
Proof.
  induction rest as [|b rest IH]; intros i balances Hv j block Hj.
  - destruct j; discriminate.
  - simpl in Hv.
    destruct (Blockchain.block_checks chain i b) eqn:Hc; [|discriminate].
    destruct (Blockchain.replay_txs balances (Block.transactions b))
      as [balances'|] eqn:Hr; [|discriminate].
    destruct j as [|j]; simpl in Hj.
    + injection Hj as <-. rewrite Nat.add_0_r. split; [exact Hc|].
      eapply replay_txs_nonneg; eassumption.
    + replace (i + S j)%nat with (S i + j)%nat by lia.
      eapply IH; eassumption.
Qed.

Lemma block_checks_succ chain k block prev :
  chain !! k = Some prev ->
  Blockchain.block_checks chain (S k) block = true ->
  Block.hash block = Block.calculate_hash block /\
  Block.previous_hash block = Block.hash prev /\
  Block.index block = Z.of_nat (S k) /\
  DateTime.leb (Block.timestamp block) (Block.timestamp prev) = false.
Proof.
  unfold Blockchain.block_checks. intros Hk.
  destruct (String.eqb_spec (Block.hash block) (Block.calculate_hash block)) as [Hh|];
    [|discriminate].
  simpl. replace (k - 0)%nat with k by lia. rewrite Hk.
  destruct (String.eqb_spec (Block.previous_hash block) (Block.hash prev)) as [Hp|];
    [|discriminate].
  destruct (Z.eqb_spec (Block.index block) (Z.of_nat (S k))) as [Hi|]; [|discriminate].
  simpl. destruct (DateTime.leb _ _); [discriminate|]. auto.
Qed.

Lemma block_checks_hash chain i block :
  Blockchain.block_checks chain i block = true ->
  Block.hash block = Block.calculate_hash block.
Proof.
  unfold Blockchain.block_checks.
  destruct (String.eqb_spec (Block.hash block) (Block.calculate_hash block));
    [auto | discriminate].
Qed.
End ValidationFacts.

(** C2: [is_chain_valid] answers [False] when some block's [previous_hash]
    differs from its predecessor's hash, when some block's timestamp is not
    later than its predecessor's, and when some transaction has a negative
    amount. *)
Theorem is_chain_valid_rejects {A : Type} `{Amount A}
    (self : Blockchain.t A) (arg : option (list (Block.t A))) :
  let chain := Blockchain.chain_or_own arg self in
  (forall i prev block,
      chain !! i = Some prev -> chain !! S i = Some block ->
      Block.previous_hash block <> Block.hash prev ->
      Blockchain.is_chain_valid arg self = false) /\
  (forall i prev block,
      chain !! i = Some prev -> chain !! S i = Some block ->
      DateTime.ltb (Block.timestamp prev) (Block.timestamp block) = false ->
      Blockchain.is_chain_valid arg self = false) /\
  (forall i block tx,
      chain !! i = Some block -> tx ∈ Block.transactions block ->
      amt_ltb (tx_amount tx) amt_zero = true ->
      Blockchain.is_chain_valid arg self = false).
Proof.
  intros chain. unfold Blockchain.is_chain_valid. fold chain.
  destruct (Blockchain.valid_from chain 0 chain ∅) eqn:Hv.
  2: { repeat split; reflexivity. }
  pose proof (valid_from_inv chain chain 0 ∅ Hv) as Hinv.
  split; [|split].
  - intros i prev block Hp Hb Hne. exfalso.
    destruct (Hinv _ _ Hb) as [Hc _].
    apply (block_checks_succ _ _ _ _ Hp) in Hc. tauto.
  - intros i prev block Hp Hb Hts. exfalso.
    destruct (Hinv _ _ Hb) as [Hc _].
    apply (block_checks_succ _ _ _ _ Hp) in Hc.
    apply not_ltb_leb in Hts. destruct Hc as (_ & _ & _ & Hc). congruence.
  - intros i block tx Hb Hin Hneg. exfalso.
    destruct (Hinv _ _ Hb) as [_ Hc]. specialize (Hc _ Hin). congruence.
Qed.

(** C4: [replace_chain] answers [True] exactly when the candidate is
    strictly longer than the current chain and passes [is_chain_valid]; it
    then installs the candidate and changes nothing else; in every other
    case it answers [False] and leaves the ledger as it was. *)
Theorem replace_chain_longest_valid {A : Type} `{Amount A}
    (self : Blockchain.t A) (new_chain : list (Block.t A)) :
  let accepted :=
    (length (Blockchain.chain self) < length new_chain)%nat /\
    Blockchain.is_chain_valid (Some new_chain) self = true in
  let result := Blockchain.replace_chain new_chain self in
  (fst result = true <-> accepted) /\
  (fst result = true -> snd result = Blockchain.set_chain new_chain self) /\
  (fst result = false -> snd result = self).
Proof.
  intros accepted result. subst accepted result. unfold Blockchain.replace_chain.
  destruct (Nat.ltb_spec (length (Blockchain.chain self)) (length new_chain)) as [Hl|Hl];
    simpl.
  - destruct (Blockchain.is_chain_valid (Some new_chain) self); simpl.
    + repeat split; auto; discriminate.
    + repeat split; auto; try discriminate. intros [_ ?]. discriminate.
  - repeat split; auto; try discriminate. intros [? _]. lia.
Qed.

Lemma is_chain_valid_rejects_witness :
  Blockchain.is_chain_valid (Some [Scenario.genesis; Scenario.relinked]) Scenario.fresh = false /\
  Blockchain.is_chain_valid (Some [Scenario.genesis; Scenario.backdated]) Scenario.fresh = false /\
  Blockchain.is_chain_valid (Some [Scenario.genesis; Scenario.negative]) Scenario.fresh = false.
Proof.
  split; [|split].
  - apply (proj1 (is_chain_valid_rejects Scenario.fresh
                    (Some [Scenario.genesis; Scenario.relinked]))
             0%nat Scenario.genesis Scenario.relinked);
      [reflexivity | reflexivity | vm_compute; discriminate].
  - apply (proj1 (proj2 (is_chain_valid_rejects Scenario.fresh
                    (Some [Scenario.genesis; Scenario.backdated])))
             0%nat Scenario.genesis Scenario.backdated);
      [reflexivity | reflexivity | vm_compute; reflexivity].
  - apply (proj2 (proj2 (is_chain_valid_rejects Scenario.fresh
                    (Some [Scenario.genesis; Scenario.negative])))
             1%nat Scenario.negative (mkTx SYSTEM "mallory" (-50)%float));
      [reflexivity | apply list_elem_of_here | vm_compute; reflexivity].
Defined.

Lemma replace_chain_longest_valid_witness :
  (length (Blockchain.chain Scenario.fresh) < length Scenario.unmined_chain)%nat /\
  Blockchain.is_chain_valid (Some Scenario.unmined_chain) Scenario.fresh = true /\
  fst (Blockchain.replace_chain Scenario.unmined_chain Scenario.fresh) = true /\
  snd (Blockchain.replace_chain Scenario.unmined_chain Scenario.fresh)
  = Blockchain.set_chain Scenario.unmined_chain Scenario.fresh.
Proof.
  assert (Hl : (length (Blockchain.chain Scenario.fresh)
                < length Scenario.unmined_chain)%nat) by (simpl; lia).
  assert (Hv : Blockchain.is_chain_valid (Some Scenario.unmined_chain) Scenario.fresh
               = true) by (vm_compute; reflexivity).
  destruct (replace_chain_longest_valid Scenario.fresh Scenario.unmined_chain)
    as (Hiff & Hyes & _).
  assert (Hr : fst (Blockchain.replace_chain Scenario.unmined_chain Scenario.fresh) = true)
    by (apply Hiff; split; assumption).
  repeat split; auto.
Defined.

(** A candidate that is not longer is refused, whether valid or not. *)
Lemma replace_chain_tie {A : Type} `{Amount A}
    (self : Blockchain.t A) (new_chain : list (Block.t A)) :
  (length new_chain <= length (Blockchain.chain self))%nat ->
  Blockchain.replace_chain new_chain self = (false, self).
Proof.
  intros Hl. unfold Blockchain.replace_chain.
  destruct (Nat.ltb_spec (length (Blockchain.chain self)) (length new_chain));
    [lia | reflexivity].
Qed.

(** C5: [add_transaction] raises an error of kind InvalidInput when a field
    is missing, when an address is blank or when the amount is not positive;
    on a well-formed request whose sender is not SYSTEM it raises
    InsufficientFunds when the balance of the sender less the sender's
    pending debits is below the amount less 1e-9; otherwise it appends the
    record to the end of the mempool and changes nothing else.  Whenever it
    raises, the ledger is unchanged. *)
Theorem add_transaction_outcomes {A : Type} `{Amount A}
    (self : Blockchain.t A) (tx : Blockchain.request A) :
  let result := Blockchain.add_transaction tx self in
  ((Blockchain.req_from tx = None \/ Blockchain.req_to tx = None \/
    Blockchain.req_amount tx = None \/
    (exists s, Blockchain.req_from tx = Some s /\ Py.is_blank s = true) \/
    (exists r, Blockchain.req_to tx = Some r /\ Py.is_blank r = true) \/
    (exists a, Blockchain.req_amount tx = Some a /\ amt_leb a amt_zero = true)) ->
   exists m, result = (Raise (ValueError m), self) /\ kind_of m = InvalidInput) /\
  (forall s r a,
      Blockchain.req_from tx = Some s -> Blockchain.req_to tx = Some r ->
      Blockchain.req_amount tx = Some a ->
      Py.is_blank s = false -> Py.is_blank r = false -> amt_leb a amt_zero = false ->
      let short :=
        amt_ltb (amt_sub (Blockchain.get_balance self s) (Blockchain.pending_out self s))
                (amt_sub a amt_eps) in
      (s <> SYSTEM -> short = true ->
       result = (Raise (ValueError Insufficient_funds), self)) /\
      (s = SYSTEM \/ short = false ->
       result = (Return tt,
                 Blockchain.set_mempool (Blockchain.mempool self ++ [mkTx s r a]) self))) /\
  (forall e self', result = (Raise e, self') -> self' = self).
Proof.
  intros result. subst result. unfold Blockchain.add_transaction.
  split; [|split].
  - intros Hbad.
    destruct (Blockchain.req_from tx) as [s|]; [|eexists; split; reflexivity].
    destruct (Blockchain.req_to tx) as [r|]; [|eexists; split; reflexivity].
    destruct (Blockchain.req_amount tx) as [a|]; [|eexists; split; reflexivity].
    destruct (Py.is_blank s) eqn:Hs; [eexists; split; reflexivity|].
    destruct (Py.is_blank r) eqn:Hr; [eexists; split; reflexivity|].
    destruct (amt_leb a amt_zero) eqn:Ha; [eexists; split; reflexivity|].
    exfalso.
    destruct Hbad as [?|[?|[?|[(?&?&?)|[(?&?&?)|(?&?&?)]]]]]; congruence.
  - intros s r a Ef Et Ea Hs Hr Ha. rewrite Ef, Et, Ea, Hs, Hr, Ha. simpl.
    split.
    + intros Hne Hshort. rewrite Hshort.
      rewrite bool_decide_eq_false_2 by exact Hne. reflexivity.
    + intros [-> | Hshort].
      * rewrite bool_decide_eq_true_2 by reflexivity. reflexivity.
      * rewrite Hshort, andb_false_r. reflexivity.
  - intros e self'.
    destruct (Blockchain.req_from tx) as [s|]; [|congruence].
    destruct (Blockchain.req_to tx) as [r|]; [|congruence].
    destruct (Blockchain.req_amount tx) as [a|]; [|congruence].
    destruct (Py.is_blank s || Py.is_blank r); [congruence|].
    destruct (amt_leb a amt_zero); [congruence|].
    destruct (negb (bool_decide (s = SYSTEM)) && _); [congruence | discriminate].
Qed.

Lemma add_transaction_outcomes_witness :
  (exists m, Blockchain.add_transaction (Scenario.transfer "genesis" "alice" 0%float)
                                        Scenario.fresh
             = (Raise (ValueError m), Scenario.fresh) /\ kind_of m = InvalidInput) /\
  Blockchain.add_transaction (Scenario.transfer "alice" "bob" 1%float) Scenario.fresh
  = (Raise (ValueError Insufficient_funds), Scenario.fresh) /\
  Blockchain.add_transaction (Scenario.transfer "genesis" "alice" 100%float) Scenario.fresh
  = (Return tt,
     Blockchain.set_mempool [mkTx "genesis" "alice" 100%float] Scenario.fresh).
Proof.
  split; [|split].
  - apply (proj1 (add_transaction_outcomes Scenario.fresh
                    (Scenario.transfer "genesis" "alice" 0%float))).
    right; right; right; right; right. exists 0%float. split; reflexivity.
  - refine (proj1 (proj1 (proj2 (add_transaction_outcomes Scenario.fresh
                    (Scenario.transfer "alice" "bob" 1%float)))
                  "alice" "bob" 1%float _ _ _ _ _ _) _ _);
      try discriminate; vm_compute; reflexivity.
  - refine (proj2 (proj1 (proj2 (add_transaction_outcomes Scenario.fresh
                    (Scenario.transfer "genesis" "alice" 100%float)))
                  "genesis" "alice" 100%float _ _ _ _ _ _) _);
      try (vm_compute; reflexivity).
    right. vm_compute. reflexivity.
Defined.

(** ** Mining on the ledger *)

Section MiningFacts.
Context {A : Type} `{Amount A}.

Lemma list_prefix_take (k : Z) (l : list (Transaction A)) :
  exists n, Py.list_prefix k l = take n l.
Proof. unfold Py.list_prefix. destruct (0 <=? k); eauto. Qed.

Lemma list_prefix_oldest (k : Z) (l : list (Transaction A)) :
  0 <= k ->
  Py.list_prefix k l = take (Nat.min (Z.to_nat k) (length l)) l.
Proof.
  intros Hk. unfold Py.list_prefix.
  destruct (Z.leb_spec 0 k); [|lia].
  destruct (Nat.min_spec (Z.to_nat k) (length l)) as [[_ ->] | [Hle ->]];
    [reflexivity|].
  rewrite !take_ge by lia. reflexivity.
Qed.

(** What a successful call has done. *)
Lemma mine_block_success fuel now miner (self self' : Blockchain.t A) block :
  Blockchain.mine_block fuel now miner self = Some (Return block, self') ->
  exists latest,
    Blockchain.get_latest_block self = Some latest /\
    let txs := Py.list_prefix (Blockchain.block_capacity self) (Blockchain.mempool self)
               ++ [mkTx SYSTEM miner (Blockchain.mining_reward self)] in
    Block.transactions block = txs /\
    Block.index block = Z.of_nat (length (Blockchain.chain self)) /\
    Block.previous_hash block = Block.hash latest /\
    Block.timestamp block = now /\
    Block.hash block = Block.calculate_hash block /\
    Block.meets_target (Blockchain.difficulty self) block = true /\
    self' = Blockchain.set_mempool
              (Blockchain.prune (Blockchain.included txs) (Blockchain.mempool self))
              (Blockchain.set_chain (Blockchain.chain self ++ [block]) self).
Proof.
  unfold Blockchain.mine_block.
  destruct (Py.is_blank miner); [discriminate|].
  destruct (Blockchain.get_latest_block self) as [latest|]; [|discriminate].
  destruct (Block.mine_block _ _ _) as [mined|] eqn:Hm; [|discriminate].
  intros Heq. injection Heq as <- <-.
  destruct (mine_block_inv _ _ _ _ Hm) as (Ht & (Hi & Hp & Hs & Hx) & Hc).
  exists latest. split; [reflexivity|]. simpl.
  repeat split; try assumption.
  destruct Hc as [-> | Hc]; [apply init_consistent | exact Hc].
Qed.

(** The entries that leave the mempool are those whose JSON text is the
    text of a transaction of the block not sent by SYSTEM. *)
Lemma prune_spec (txs pool : list (Transaction A)) (tx : Transaction A) :
  tx ∈ Blockchain.prune (Blockchain.included txs) pool <->
  tx ∈ pool /\
  ~ exists tx', tx' ∈ txs /\ tx_from tx' <> SYSTEM /\ dumps_tx tx' = dumps_tx tx.
Proof.
  unfold Blockchain.prune, Blockchain.included.
  rewrite list_elem_of_filter, elem_of_list_to_set, list_elem_of_fmap.
  setoid_rewrite list_elem_of_filter.
  split.
  - intros [Hnot Hin]. split; [exact Hin|].
    intros (tx' & ? & ? & ?). apply Hnot. exists tx'. auto.
  - intros [Hin Hnot]. split; [|exact Hin].
    intros (tx' & ? & ? & ?). apply Hnot. exists tx'. auto.
Qed.
End MiningFacts.

(** C6: on a ledger whose blocks hold one transaction, with the same
    transfer twice in the mempool, [mine_block] puts one copy in the block
    and removes both copies from the mempool. *)
Theorem mine_block_prunes_unmined_duplicate :
  let tx := mkTx "genesis" "alice" 1%float in
  Blockchain.block_capacity Scenario.twice2 = 1 /\
  Blockchain.mempool Scenario.twice2 = [tx; tx] /\
  exists block self',
    Scenario.twice3 = Some (Return block, self') /\
    Block.transactions block = [tx; mkTx SYSTEM "node1" 50%float] /\
    Blockchain.mempool self' = [].
Proof.
  intros tx. split; [reflexivity|]. split; [vm_compute; reflexivity|].
  eexists. eexists. split; [vm_compute; reflexivity|].
  split; reflexivity.
Qed.

(** A transaction that SYSTEM sends through [add_transaction] is mined and
    stays in the mempool. *)
Lemma mine_block_keeps_system_entry :
  let tx := mkTx SYSTEM "carol" 7%float in
  Blockchain.mempool Scenario.minted1 = [tx] /\
  exists block self',
    Scenario.minted2 = Some (Return block, self') /\
    Block.transactions block = [tx; mkTx SYSTEM "node2" 50%float] /\
    Blockchain.mempool self' = [tx].
Proof.
  intros tx. split; [vm_compute; reflexivity|].
  eexists. eexists. split; [vm_compute; reflexivity|].
  split; reflexivity.
Qed.

(** ** Canonical JSON *)

Section JsonFacts.
Context {A : Type} `{Amount A}.

#[local] Instance key_le_trans : Transitive (Json.key_le (A:=A)).
Proof. intros x y z. unfold Json.key_le. apply transitivity. Qed.

#[local] Instance key_le_total : Total (Json.key_le (A:=A)).
Proof. intros x y. unfold Json.key_le. apply (total String.le). Qed.

Lemma same_key_same_item (d : Json.dict A) x y :
  NoDup (map fst d) -> x ∈ d -> y ∈ d -> fst x = fst y -> x = y.
Proof.
  induction d as [|z d IH]; intros Hnd Hx Hy Hk; [inversion Hx|].
  simpl in Hnd. apply NoDup_cons in Hnd as [Hz Hnd].
  apply elem_of_cons in Hx as [-> | Hx]; apply elem_of_cons in Hy as [-> | Hy].
  - reflexivity.
  - exfalso. apply Hz. rewrite Hk. apply list_elem_of_fmap. eauto.
  - exfalso. apply Hz. rewrite <- Hk. apply list_elem_of_fmap. eauto.
  - auto.
Qed.

(** The sorted items, hence the text, do not depend on the order in which
    the keys were inserted. *)
Lemma sorted_items_perm (d d' : Json.dict A) :
  NoDup (map fst d) -> d ≡ₚ d' -> Json.sorted_items d = Json.sorted_items d'.
Proof.
  intros Hnd Hp. unfold Json.sorted_items.
  apply (Sorted_unique_strong Json.key_le).
  - intros x y Hx Hy Hxy Hyx.
    apply (same_key_same_item d); [exact Hnd | | |].
    + rewrite <- (merge_sort_Permutation Json.key_le d). exact Hx.
    + rewrite Hp, <- (merge_sort_Permutation Json.key_le d'). exact Hy.
    + unfold Json.key_le in *. apply (anti_symm String.le); assumption.
  - apply Sorted_merge_sort; apply _.
  - apply Sorted_merge_sort; apply _.
  - rewrite !merge_sort_Permutation. exact Hp.
Qed.

Lemma dumps_dict_perm (d d' : Json.dict A) :
  NoDup (map fst d) -> d ≡ₚ d' -> Json.dumps_dict d = Json.dumps_dict d'.
Proof.
  intros Hnd Hp. unfold Json.dumps_dict. rewrite (sorted_items_perm d d'); auto.
Qed.

Lemma tx_dict_keys (tx : Transaction A) : NoDup (map fst (tx_dict tx)).
Proof.
  simpl. repeat constructor; rewrite ?elem_of_cons, ?elem_of_nil;
    intuition discriminate.
Qed.
End JsonFacts.

(** Against C8 as stated: two blocks that hold the same transactions in two
    orders have different hashes. *)
Lemma hash_depends_on_order :
  ~ (forall (b : Block.t float) (txs : list (Transaction float)),
        Block.transactions b ≡ₚ txs ->
        Block.calculate_hash
          (Block.mk (Block.index b) (Block.previous_hash b) (Block.timestamp b)
                    txs (Block.nonce b) (Block.hash b))
        = Block.calculate_hash b).
Proof.
  intros Hall.
  specialize (Hall Scenario.block_ab_cd [Scenario.tx_cd; Scenario.tx_ab]).
  assert (Hp : Block.transactions Scenario.block_ab_cd
               ≡ₚ [Scenario.tx_cd; Scenario.tx_ab]) by apply Permutation_swap.
  specialize (Hall Hp). vm_compute in Hall. discriminate.
Qed.

(** C8, amended: the hash of a block does not depend on the order of the
    keys inside each transaction dict; the dicts [dicts], whose items are
    those of the block's transactions in any order, hash as the block. *)
Theorem hash_key_order_independent {A : Type} `{Amount A}
    (b : Block.t A) (dicts : list (Json.dict A)) :
  Forall2 (fun d tx => d ≡ₚ tx_dict tx) dicts (Block.transactions b) ->
  Block.hash_of (Block.index b) (Block.previous_hash b) (Block.timestamp b)
                dicts (Block.nonce b)
  = Block.calculate_hash b.
Proof.
  intros Hd. unfold Block.calculate_hash, Block.hash_of, Block.block_string,
    Json.dumps_list.
  assert (Heq : map Json.dumps_dict dicts
                = map Json.dumps_dict (map tx_dict (Block.transactions b))).
  { induction Hd as [|d tx dicts txs Hp _ IH]; [reflexivity|].
    simpl. f_equal; [|exact IH].
    symmetry. apply dumps_dict_perm; [apply tx_dict_keys | symmetry; exact Hp]. }
  rewrite Heq. reflexivity.
Qed.

Lemma hash_key_order_independent_witness :
  Block.hash_of 1 "0" Scenario.t1
    [ [("amount", Json.Num 1%float); ("to", Json.Str "b"); ("from", Json.Str "a")];
      [("to", Json.Str "d"); ("from", Json.Str "c"); ("amount", Json.Num 2%float)] ] 0
  = Block.calculate_hash Scenario.block_ab_cd.
Proof.
  apply (hash_key_order_independent Scenario.block_ab_cd).
  constructor; [|constructor; [|constructor]].
  - change (tx_dict Scenario.tx_ab)
      with [("from", Json.Str "a"); ("to", Json.Str "b"); ("amount", Json.Num 1%float)].
    apply (Permutation_rev
             [("amount", Json.Num 1%float); ("to", Json.Str "b"); ("from", Json.Str "a")]).
  - change (tx_dict Scenario.tx_cd)
      with [("from", Json.Str "c"); ("to", Json.Str "d"); ("amount", Json.Num 2%float)].
    apply Permutation_swap.
Defined.

(** ** Fork choice *)

Lemma replace_chain_accepts {A : Type} `{Amount A}
    (self : Blockchain.t A) (new_chain : list (Block.t A)) :
  (length (Blockchain.chain self) < length new_chain)%nat ->
  Blockchain.is_chain_valid (Some new_chain) self = true ->
  Blockchain.replace_chain new_chain self = (true, Blockchain.set_chain new_chain self).
Proof.
  intros Hl Hv. unfold Blockchain.replace_chain. rewrite Hv.
  destruct (Nat.ltb_spec (length (Blockchain.chain self)) (length new_chain));
    [reflexivity | lia].
Qed.

(** The answer of [is_chain_valid] on a chain that is given does not
    depend on the ledger that is asked: neither its difficulty nor its own
    chain is read. *)
Lemma is_chain_valid_candidate {A : Type} `{Amount A}
    (self other : Blockchain.t A) (b : Block.t A) (chain : list (Block.t A)) :
  Blockchain.is_chain_valid (Some (b :: chain)) self
  = Blockchain.is_chain_valid (Some (b :: chain)) other.
Proof. reflexivity. Qed.

(** C9: the chain made of the genesis block and of one block that was
    never mined passes every check of [is_chain_valid], although the hash
    of that second block does not meet the difficulty of the ledger. *)
Theorem validation_skips_proof_of_work :
  exists (chain : list (Block.t float)) (unmined : Block.t float),
    chain !! 1%nat = Some unmined /\
    Block.meets_target (Blockchain.difficulty Scenario.fresh) unmined = false /\
    (forall b, b ∈ chain -> Block.hash b = Block.calculate_hash b) /\
    (forall i b, chain !! i = Some b -> Blockchain.block_checks chain i b = true) /\
    (exists balances, Blockchain.replay_txs ∅ (chain_txs chain) = Some balances) /\
    (forall i b, chain !! S i = Some b ->
                 Block.meets_target (Blockchain.difficulty Scenario.fresh) b = false) /\
    Blockchain.is_chain_valid (Some chain) Scenario.fresh = true.
Proof.
  exists Scenario.unmined_chain, Scenario.unmined. unfold Scenario.unmined_chain.
  split; [reflexivity|]. split; [vm_compute; reflexivity|].
  split; [|split; [|split; [|split]]].
  - intros b Hb.
    apply elem_of_cons in Hb as [-> | Hb]; [apply init_consistent|].
    apply elem_of_cons in Hb as [-> | Hb]; [apply init_consistent|].
    inversion Hb.
  - intros [|[|i]] b Hb; simpl in Hb; [| |discriminate];
      injection Hb as <-; vm_compute; reflexivity.
  - eexists. vm_compute. reflexivity.
  - intros [|i] b Hb; simpl in Hb; [|discriminate].
    injection Hb as <-. vm_compute. reflexivity.
  - vm_compute. reflexivity.
Qed.

(** C10: a chain of two blocks that starts on another genesis block, with
    another initial allocation, passes [is_chain_valid], and [replace_chain]
    installs it on a fresh ledger. *)
Theorem validation_accepts_foreign_genesis :
  exists candidate : list (Block.t float),
    head candidate <> Some Blockchain.create_genesis_block /\
    (forall b, b ∈ candidate -> Block.hash b = Block.calculate_hash b) /\
    Blockchain.is_chain_valid (Some candidate) Scenario.fresh = true /\
    (length (Blockchain.chain Scenario.fresh) < length candidate)%nat /\
    let result := Blockchain.replace_chain candidate Scenario.fresh in
    fst result = true /\
    Blockchain.chain (snd result) = candidate /\
    Blockchain.get_balance (snd result) "genesis" = 0%float /\
    Blockchain.get_balance (snd result) "mallory" = 999999995%float.
Proof.
  exists Scenario.forged_chain.
  assert (Hv : Blockchain.is_chain_valid (Some Scenario.forged_chain) Scenario.fresh
               = true) by (vm_compute; reflexivity).
  assert (Hl : (length (Blockchain.chain Scenario.fresh)
                < length Scenario.forged_chain)%nat) by (simpl; lia).
  split; [|split; [|split; [|split]]]; try assumption.
  - intros Heq.
    apply (f_equal (fun o => match o with
                             | Some b => Block.transactions b
                             | None => []
                             end)) in Heq.
    vm_compute in Heq. discriminate.
  - intros b Hb. unfold Scenario.forged_chain in Hb.
    apply elem_of_cons in Hb as [-> | Hb]; [apply init_consistent|].
    apply elem_of_cons in Hb as [-> | Hb]; [apply init_consistent|].
    inversion Hb.
  - rewrite (replace_chain_accepts _ _ Hl Hv). simpl.
    repeat split; vm_compute; reflexivity.
Qed.

(** ** Computations that do not round *)

Lemma digits2_bounds (m : positive) :
  2 ^ (Z.pos (digits2_pos m) - 1) <= Z.pos m < 2 ^ Z.pos (digits2_pos m).
Proof.
  induction m as [m IH | m IH |]; cbn [digits2_pos].
  - rewrite Pos2Z.inj_succ.
    replace (Z.succ (Z.pos (digits2_pos m)) - 1) with (Z.succ (Z.pos (digits2_pos m) - 1)) by lia.
    rewrite !Z.pow_succ_r by lia. lia.
  - rewrite Pos2Z.inj_succ.
    replace (Z.succ (Z.pos (digits2_pos m)) - 1) with (Z.succ (Z.pos (digits2_pos m) - 1)) by lia.
    rewrite !Z.pow_succ_r by lia. lia.
  - simpl. lia.
Qed.

(** What [valid_binary] says of a finite float. *)
Lemma bounded_shape (m : positive) (e : Z) :
  bounded prec emax m e = true ->
  -1074 <= e /\ Z.pos m < 2 ^ 53 /\ (e = -1074 \/ 2 ^ 52 <= Z.pos m).
Proof.
  unfold bounded, canonical_mantissa, fexp, SpecFloat.emin, prec, emax.
  intros Hb. apply andb_prop in Hb as [Hc _]. apply Z.eqb_eq in Hc.
  pose proof (digits2_bounds m) as [Hlow Hhigh].
  assert (Hd : Z.pos (digits2_pos m) <= 53) by lia.
  split; [lia|]. split.
  - apply (Z.lt_le_trans _ _ _ Hhigh). apply Z.pow_le_mono_r; lia.
  - destruct (Z.eq_dec e (-1074)) as [|Hne]; [left; assumption | right].
    assert (Hd53 : Z.pos (digits2_pos m) = 53) by lia.
    rewrite Hd53 in Hlow. exact Hlow.
Qed.

Lemma same_scaled (m1 m2 : positive) (e1 e2 : Z) :
  bounded prec emax m1 e1 = true -> bounded prec emax m2 e2 = true ->
  Z.pos m1 * 2 ^ (e1 + 1074) = Z.pos m2 * 2 ^ (e2 + 1074) ->
  e1 <= e2 -> e1 = e2 /\ m1 = m2.
Proof.
  intros H1 H2 Heq Hle.
  apply bounded_shape in H1 as (Hmin1 & Hup1 & _).
  apply bounded_shape in H2 as (Hmin2 & Hup2 & Hnorm2).
  assert (Hpos : 0 < 2 ^ (e1 + 1074)) by (apply Z.pow_pos_nonneg; lia).
  replace (e2 + 1074) with ((e2 - e1) + (e1 + 1074)) in Heq by lia.
  rewrite (Z.pow_add_r 2 (e2 - e1) (e1 + 1074)) in Heq by lia.
  rewrite Z.mul_assoc in Heq. apply Z.mul_reg_r in Heq; [|lia].
  destruct (Z.eq_dec e1 e2) as [->|Hne].
  - split; [reflexivity|]. rewrite Z.sub_diag in Heq. simpl in Heq. lia.
  - exfalso. destruct Hnorm2 as [-> | Hnorm2]; [lia|].
    assert (Hk : 2 ^ 1 <= 2 ^ (e2 - e1)) by (apply Z.pow_le_mono_r; lia).
    change (2 ^ 1) with 2 in Hk. nia.
Qed.

(** Two finite floats that stand for the same number are equal for [==]. *)
Lemma value_inj (x y : float) (v : Z) :
  Exact.value x = Some v -> Exact.value y = Some v -> PrimFloat.eqb x y = true.
Proof.
  unfold Exact.value. rewrite FloatAxioms.eqb_spec.
  pose proof (Prim2SF_valid x) as Hx. pose proof (Prim2SF_valid y) as Hy.
  destruct (Prim2SF x) as [sx | sx | | sx mx ex]; try discriminate;
    destruct (Prim2SF y) as [sy | sy | | sy my ey]; try discriminate.
  - reflexivity.
  - intros Hvx. injection Hvx as <-.
    destruct (-1074 <=? ey); [|discriminate]. intros Hvy. injection Hvy as Hvy.
    exfalso. simpl in Hy. apply bounded_shape in Hy as (Hmin & _).
    assert (0 < Z.pos my * 2 ^ (ey + 1074))
      by (apply Z.mul_pos_pos; [lia | apply Z.pow_pos_nonneg; lia]).
    destruct sy; lia.
  - destruct (-1074 <=? ex); [|discriminate]. intros Hvx Hvy.
    injection Hvx as Hvx. injection Hvy as <-.
    exfalso. simpl in Hx. apply bounded_shape in Hx as (Hmin & _).
    assert (0 < Z.pos mx * 2 ^ (ex + 1074))
      by (apply Z.mul_pos_pos; [lia | apply Z.pow_pos_nonneg; lia]).
    destruct sx; lia.
  - simpl in Hx, Hy.
    destruct (-1074 <=? ex); [|discriminate].
    destruct (-1074 <=? ey); [|discriminate].
    intros Hvx Hvy. injection Hvx as Hvx. injection Hvy as Hvy.
    pose proof (bounded_shape _ _ Hx) as (Hminx & _).
    pose proof (bounded_shape _ _ Hy) as (Hminy & _).
    assert (Hpx : 0 < Z.pos mx * 2 ^ (ex + 1074))
      by (apply Z.mul_pos_pos; [lia | apply Z.pow_pos_nonneg; lia]).
    assert (Hpy : 0 < Z.pos my * 2 ^ (ey + 1074))
      by (apply Z.mul_pos_pos; [lia | apply Z.pow_pos_nonneg; lia]).
    assert (Hs : sx = sy) by (destruct sx, sy; lia || reflexivity).
    subst sy.
    assert (Habs : Z.pos mx * 2 ^ (ex + 1074) = Z.pos my * 2 ^ (ey + 1074))
      by (destruct sx; lia).
    assert (Hsame : ex = ey /\ mx = my).
    { destruct (Z.le_ge_cases ex ey) as [Hle | Hge].
      - apply same_scaled; assumption.
      - destruct (same_scaled my mx ey ex) as [-> ->]; auto. }
    destruct Hsame as [-> ->].
    unfold SFeqb, SFcompare. rewrite Z.compare_refl.
    change (PosDef.Pos.compare_cont Eq my my) with (Pos.compare my my).
    rewrite Pos.compare_refl. destruct sx; reflexivity.
Qed.

Lemma value_zero : Exact.value 0%float = Some 0.
Proof. reflexivity. Qed.

Lemma add_exact_units (x y : float) :
  Exact.add_exact x y = true ->
  Exact.units (x + y) = Exact.units x + Exact.units y /\
  is_Some (Exact.value (x + y)).
Proof.
  unfold Exact.add_exact, Exact.units.
  destruct (Exact.value x) as [vx|]; [|discriminate].
  destruct (Exact.value y) as [vy|]; [|discriminate].
  destruct (Exact.value (x + y)) as [v|]; [|discriminate].
  intros Heq. apply Z.eqb_eq in Heq. simpl. eauto.
Qed.

Lemma sub_exact_units (x y : float) :
  Exact.sub_exact x y = true ->
  Exact.units (x - y) = Exact.units x - Exact.units y.
Proof.
  unfold Exact.sub_exact, Exact.units.
  destruct (Exact.value x) as [vx|]; [|discriminate].
  destruct (Exact.value y) as [vy|]; [|discriminate].
  destruct (Exact.value (x - y)) as [v|]; [|discriminate].
  intros Heq. apply Z.eqb_eq in Heq. simpl. exact Heq.
Qed.

(** A sum in which no addition rounds stands for the sum of the numbers. *)
Lemma units_sum (l : list float) :
  forall z,
    checked Exact.add_exact PrimFloat.add l z = true ->
    is_Some (Exact.value z) ->
    Exact.units (fold_left PrimFloat.add l z)
    = Exact.units z + fold_right (fun x acc => Exact.units x + acc) 0 l /\
    is_Some (Exact.value (fold_left PrimFloat.add l z)).
Proof.
  induction l as [|x l IH]; intros z Hc Hz; simpl in *.
  - split; [lia | exact Hz].
  - apply andb_prop in Hc as [Hx Hc].
    destruct (add_exact_units _ _ Hx) as [Hu Hv].
    destruct (IH _ Hc Hv) as [IHu IHv]. split; [|exact IHv].
    rewrite IHu, Hu. lia.
Qed.

Lemma units_balance_tx (a : string) (balance : float) (tx : Transaction float) :
  balance_tx_exact a balance tx = true ->
  Exact.units (Blockchain.balance_tx a balance tx)
  = Exact.units balance + (credit a tx - debit a tx).
Proof.
  unfold balance_tx_exact, Blockchain.balance_tx, credit, debit. cbv zeta.
  change (@amt_sub float float_amount) with PrimFloat.sub.
  change (@amt_add float float_amount) with PrimFloat.add.
  destruct (bool_decide (tx_from tx = a) && negb (bool_decide (tx_from tx = SYSTEM)));
    destruct (bool_decide (tx_to tx = a)); intros Hc;
    apply andb_prop in Hc as [Hs Ha].
  - destruct (add_exact_units _ _ Ha) as [-> _].
    rewrite (sub_exact_units _ _ Hs). lia.
  - rewrite (sub_exact_units _ _ Hs). lia.
  - destruct (add_exact_units _ _ Ha) as [-> _]. lia.
  - lia.
Qed.

Lemma units_balance_txs (a : string) (txs : list (Transaction float)) :
  forall balance,
    checked (balance_tx_exact a) (Blockchain.balance_tx a) txs balance = true ->
    Exact.units (fold_left (Blockchain.balance_tx a) txs balance)
    = Exact.units balance + net a txs.
Proof.
  induction txs as [|tx txs IH]; intros balance Hc; simpl in *; [lia|].
  apply andb_prop in Hc as [Htx Hc].
  rewrite (IH _ Hc), (units_balance_tx _ _ _ Htx). lia.
Qed.

(** [get_balance] goes through the transactions of the chain in order. *)
Lemma balance_chain_txs {A : Type} `{Amount A} (a : string) (chain : list (Block.t A)) :
  forall balance : A,
    fold_left (Blockchain.balance_block a) chain balance
    = fold_left (Blockchain.balance_tx a) (chain_txs chain) balance.
Proof.
  induction chain as [|b chain IH]; intros balance; simpl; [reflexivity|].
  fold (chain_txs chain). rewrite fold_left_app, IH. reflexivity.
Qed.

(** The balance of an account is its credits minus its debits. *)
Lemma units_get_balance (self : Blockchain.t float) (a : string) :
  get_balance_exact self a = true ->
  Exact.units (Blockchain.get_balance self a) = net a (chain_txs (Blockchain.chain self)).
Proof.
  intros Hc. unfold Blockchain.get_balance. rewrite balance_chain_txs.
  change (@amt_zero float float_amount) with 0%float.
  rewrite (units_balance_txs _ _ _ Hc). reflexivity.
Qed.

Section SumFacts.
Implicit Types (tx : Transaction float) (txs : list (Transaction float)).
Implicit Types (a : string) (addrs : list string).

Lemma over_ext addrs f g : (forall a, f a = g a) -> over addrs f = over addrs g.
Proof. intros E. induction addrs; simpl; [reflexivity | rewrite E, IHaddrs; reflexivity]. Qed.

Lemma over_plus addrs f g : over addrs (fun a => f a + g a) = over addrs f + over addrs g.
Proof. induction addrs; simpl; [reflexivity | rewrite IHaddrs; lia]. Qed.

Lemma over_minus addrs f g :
  over addrs (fun a => f a - g a) = over addrs f - over addrs g.
Proof. induction addrs; simpl; [reflexivity | rewrite IHaddrs; lia]. Qed.

Lemma over_zero addrs : over addrs (fun _ => 0) = 0.
Proof. induction addrs; simpl; [reflexivity | rewrite IHaddrs; lia]. Qed.

Lemma over_absent addrs (x : string) (v : Z) :
  x ∉ addrs -> over addrs (fun a => if bool_decide (x = a) then v else 0) = 0.
Proof.
  induction addrs as [|b addrs IH]; intros Hx; simpl; [reflexivity|].
  apply not_elem_of_cons in Hx as [Hne Hx].
  rewrite bool_decide_eq_false_2 by exact Hne. rewrite IH by exact Hx. lia.
Qed.

Lemma over_once addrs (x : string) (v : Z) :
  NoDup addrs -> x ∈ addrs ->
  over addrs (fun a => if bool_decide (x = a) then v else 0) = v.
Proof.
  induction addrs as [|b addrs IH]; intros Hnd Hx; [inversion Hx|].
  apply NoDup_cons in Hnd as [Hb Hnd]. simpl.
  apply elem_of_cons in Hx as [-> | Hx].
  - rewrite bool_decide_eq_true_2 by reflexivity.
    rewrite over_absent by exact Hb. lia.
  - rewrite bool_decide_eq_false_2 by (intros ->; contradiction).
    rewrite IH by assumption. lia.
Qed.


Lemma over_credit addrs tx :
  NoDup addrs -> tx_to tx ∈ addrs -> over addrs (fun a => credit a tx) = Exact.units (tx_amount tx).
Proof. intros. unfold credit. apply over_once; assumption. Qed.

Lemma over_debit addrs tx :
  NoDup addrs -> tx_from tx ∈ addrs ->
  over addrs (fun a => debit a tx) = Exact.units (tx_amount tx) - issue tx.
Proof.
  intros Hnd Hin. unfold debit, issue.
  destruct (bool_decide (tx_from tx = SYSTEM)); simpl.
  - rewrite (over_ext _ _ (fun _ => 0)); [rewrite over_zero; lia|].
    intros a. rewrite andb_false_r. reflexivity.
  - rewrite (over_ext _ _ (fun a => if bool_decide (tx_from tx = a)
                                    then Exact.units (tx_amount tx) else 0)).
    + rewrite over_once by assumption. lia.
    + intros a. rewrite andb_true_r. reflexivity.
Qed.

Lemma over_net addrs txs :
  NoDup addrs ->
  (forall tx, tx ∈ txs -> tx_from tx ∈ addrs /\ tx_to tx ∈ addrs) ->
  over addrs (fun a => net a txs) = fold_right (fun tx acc => issue tx + acc) 0 txs.
Proof.
  intros Hnd. induction txs as [|tx txs IH]; intros Hin; simpl.
  - apply over_zero.
  - destruct (Hin tx) as [Hf Ht]; [apply list_elem_of_here|].
    rewrite (over_plus addrs (fun a => credit a tx - debit a tx) (fun a => net a txs)).
    rewrite (over_minus addrs (fun a => credit a tx) (fun a => debit a tx)).
    rewrite over_credit, over_debit by assumption.
    rewrite IH; [lia|]. intros tx' Htx'. apply Hin. apply list_elem_of_further, Htx'.
Qed.

Lemma units_total_balance (self : Blockchain.t float) addrs :
  forallb (get_balance_exact self) addrs = true ->
  sum_exact (map (Blockchain.get_balance self) addrs) = true ->
  Exact.units (total_balance self addrs)
  = over addrs (fun a => net a (chain_txs (Blockchain.chain self))) /\
  is_Some (Exact.value (total_balance self addrs)).
Proof.
  intros Hb Hs. destruct (units_sum _ _ Hs) as [Hu Hv]; [rewrite value_zero; eauto|].
  split; [|exact Hv].
  unfold total_balance. change (@amt_add float _) with PrimFloat.add.
  change (@amt_zero float _) with 0%float. rewrite Hu. clear Hu Hv Hs.
  change (Exact.units 0) with 0.
  induction addrs as [|a addrs IH]; simpl in *; [reflexivity|].
  apply andb_prop in Hb as [Ha Hb].
  rewrite (units_get_balance _ _ Ha). specialize (IH Hb). lia.
Qed.

Lemma units_system_issued (self : Blockchain.t float) :
  sum_exact
    (map tx_amount
         (filter (fun tx => tx_from tx = SYSTEM) (chain_txs (Blockchain.chain self))))
  = true ->
  Exact.units (system_issued self)
  = fold_right (fun tx acc => issue tx + acc) 0 (chain_txs (Blockchain.chain self)) /\
  is_Some (Exact.value (system_issued self)).
Proof.
  intros Hs. destruct (units_sum _ _ Hs) as [Hu Hv]; [rewrite value_zero; eauto|].
  split; [|exact Hv].
  unfold system_issued. change (@amt_add float _) with PrimFloat.add.
  change (@amt_zero float _) with 0%float. rewrite Hu. clear Hu Hv Hs.
  change (Exact.units 0) with 0.
  induction (chain_txs (Blockchain.chain self)) as [|tx txs IH]; simpl; [reflexivity|].
  rewrite filter_cons. unfold issue at 1.
  destruct (decide (tx_from tx = SYSTEM)) as [Hsys|Hsys].
  - rewrite bool_decide_eq_true_2 by exact Hsys. simpl. simpl in IH. lia.
  - rewrite bool_decide_eq_false_2 by exact Hsys. simpl in IH. lia.
Qed.
End SumFacts.

Lemma addresses_cover {A : Type} `{Amount A} (chain : list (Block.t A)) (tx : Transaction A) :
  tx ∈ chain_txs chain ->
  tx_from tx ∈ addresses chain /\ tx_to tx ∈ addresses chain.
Proof.
  intros Hin. unfold addresses. rewrite !elem_of_remove_dups.
  split; apply list_elem_of_In, in_flat_map; exists tx;
    (split; [apply list_elem_of_In, Hin | simpl; auto]).
Qed.

(** Against C7 as stated: on a fresh ledger with the default settings, SYSTEM
    sends 5e15 to [a] and a block is mined; [a] sends 1.0 to [b] twice and a
    second block is mined, which holds the entry of SYSTEM again.  The chain
    passes [is_chain_valid]; the balance of [a] is (1e16 - 1.0) - 1.0 = 1e16
    and that of [b] is 2.0, so that, in whatever order the balances are
    added, their sum is 1e16 + 5102 while SYSTEM issued 1e16 + 5100. *)
Lemma balances_do_not_add_up :
  reachable advancing_clock Scenario.fresh Scenario.inflate5 /\
  Blockchain.is_chain_valid None Scenario.inflate5 = true /\
  forall addrs,
    addrs ≡ₚ addresses (Blockchain.chain Scenario.inflate5) ->
    PrimFloat.eqb (total_balance Scenario.inflate5 addrs)
                  (system_issued Scenario.inflate5) = false.
Proof.
  split; [|split; [vm_compute; reflexivity|]].
  - apply (reach_step _ _ Scenario.inflate4).
    + apply (reach_step _ _ Scenario.inflate3).
      * apply (reach_step _ _ Scenario.inflate2).
        -- apply (reach_step _ _ Scenario.inflate1).
           ++ apply (reach_step _ _ Scenario.fresh); [apply reach_start|].
              apply (step_add _ Scenario.fund). vm_compute. reflexivity.
           ++ eapply (step_mine _ 1000 Scenario.t1 "trent"); vm_compute; reflexivity.
        -- apply (step_add _ Scenario.pay_ab). vm_compute. reflexivity.
      * apply (step_add _ Scenario.pay_ab). vm_compute. reflexivity.
    + eapply (step_mine _ 1000 Scenario.t2 "nina"); vm_compute; reflexivity.
  - intros addrs Hp.
    assert (Hall : forallb (fun l => negb (PrimFloat.eqb
                                             (total_balance Scenario.inflate5 l)
                                             (system_issued Scenario.inflate5)))
                           (permutations (addresses (Blockchain.chain Scenario.inflate5)))
                   = true)
      by (vm_compute; reflexivity).
    rewrite forallb_forall in Hall.
    apply negb_true_iff, Hall, list_elem_of_In, permutations_Permutation.
    symmetry. exact Hp.
Qed.

(** C7, amended: when no addition and no subtraction rounds in the
    computation of the balances of the addresses that appear in the chain,
    in their sum, taken in any one order, and in the sum of what SYSTEM
    issued, the two sums are equal for [==]. *)
Theorem balance_conservation_exact (self : Blockchain.t float) (addrs : list string) :
  addrs ≡ₚ addresses (Blockchain.chain self) ->
  unrounded self addrs = true ->
  PrimFloat.eqb (total_balance self addrs) (system_issued self) = true.
Proof.
  intros Hp Hu. unfold unrounded in Hu.
  apply andb_prop in Hu as [Hu Hissued]. apply andb_prop in Hu as [Hbal Hsum].
  destruct (units_total_balance _ _ Hbal Hsum) as [Htotal [v Hv]].
  destruct (units_system_issued _ Hissued) as [Hsys [w Hw]].
  assert (Heq : Exact.units (total_balance self addrs) = Exact.units (system_issued self)).
  { rewrite Htotal, Hsys. apply over_net.
    - rewrite Hp. apply NoDup_remove_dups.
    - intros tx Hin. rewrite Hp. apply addresses_cover, Hin. }
  unfold Exact.units in Heq. rewrite Hv, Hw in Heq. simpl in Heq. subst w.
  exact (value_inj _ _ _ Hv Hw).
Qed.

Lemma balance_conservation_exact_witness :
  unrounded Scenario.settled (addresses (Blockchain.chain Scenario.settled)) = true /\
  PrimFloat.eqb
    (total_balance Scenario.settled (addresses (Blockchain.chain Scenario.settled)))
    (system_issued Scenario.settled) = true.
Proof.
  assert (Hu : unrounded Scenario.settled (addresses (Blockchain.chain Scenario.settled))
               = true) by (vm_compute; reflexivity).
  split; [exact Hu|].
  apply (balance_conservation_exact Scenario.settled); [reflexivity | exact Hu].
Defined.

(** ** The loop of [is_chain_valid] *)

Section LoopFacts.
Context {A : Type} `{Amount A}.
Implicit Types (chain rest : list (Block.t A)) (balances : gmap string A).

Lemma valid_from_run chain rest :
  forall i balances,
    Blockchain.valid_from chain i rest balances
    = match run_from chain i rest balances with Some _ => true | None => false end.
Proof.
  induction rest as [|b rest IH]; intros i balances; simpl; [reflexivity|].
  destruct (Blockchain.block_checks chain i b); [|reflexivity].
  destruct (Blockchain.replay_txs balances (Block.transactions b)); [apply IH | reflexivity].
Qed.

Lemma replay_txs_app txs1 txs2 balances :
  Blockchain.replay_txs balances (txs1 ++ txs2)
  = match Blockchain.replay_txs balances txs1 with
    | Some balances' => Blockchain.replay_txs balances' txs2
    | None => None
    end.
Proof.
  revert balances. induction txs1 as [|tx txs1 IH]; intros balances; simpl; [reflexivity|].
  destruct (Blockchain.replay_tx balances tx); [apply IH | reflexivity].
Qed.

Lemma run_from_app chain rest more :
  forall i balances,
    run_from chain i (rest ++ more) balances
    = match run_from chain i rest balances with
      | Some balances' => run_from chain (i + length rest) more balances'
      | None => None
      end.
Proof.
  induction rest as [|b rest IH]; intros i balances; simpl.
  - rewrite Nat.add_0_r. reflexivity.
  - destruct (Blockchain.block_checks chain i b); [|reflexivity].
    destruct (Blockchain.replay_txs balances (Block.transactions b)); [|reflexivity].
    rewrite IH. replace (S i + length rest)%nat with (i + S (length rest))%nat by lia.
    reflexivity.
Qed.

(** The checks on a block read the chain at the position before it. *)
Lemma block_checks_app chain more i (block : Block.t A) :
  (i <= length chain)%nat ->
  Blockchain.block_checks (chain ++ more) i block = Blockchain.block_checks chain i block.
Proof.
  intros Hi. unfold Blockchain.block_checks.
  destruct (negb (String.eqb (Block.hash block) (Block.calculate_hash block)));
    [reflexivity|].
  destruct (Nat.ltb_spec 0 i); [|reflexivity].
  rewrite lookup_app_l by lia. reflexivity.
Qed.

Lemma run_from_prefix chain more rest :
  forall i balances,
    (i + length rest <= length chain)%nat ->
    run_from (chain ++ more) i rest balances = run_from chain i rest balances.
Proof.
  induction rest as [|b rest IH]; intros i balances Hi; simpl in *; [reflexivity|].
  rewrite block_checks_app by lia.
  destruct (Blockchain.block_checks chain i b); [|reflexivity].
  destruct (Blockchain.replay_txs balances (Block.transactions b)); [|reflexivity].
  apply IH. lia.
Qed.

(** The balances the loop ends on are those of a replay of all the
    transactions in order. *)
Lemma run_from_replay chain rest :
  forall i balances balances',
    run_from chain i rest balances = Some balances' ->
    Blockchain.replay_txs balances (chain_txs rest) = Some balances'.
Proof.
  induction rest as [|b rest IH]; intros i balances balances' Hr; simpl in *;
    [exact Hr|].
  destruct (Blockchain.block_checks chain i b); [|discriminate].
  fold (chain_txs rest). rewrite replay_txs_app.
  destruct (Blockchain.replay_txs balances (Block.transactions b)); [|discriminate].
  eapply IH, Hr.
Qed.
End LoopFacts.

(** ** Admission *)

Lemma add_transaction_success {A : Type} `{Amount A}
    (tx : Blockchain.request A) (self self' : Blockchain.t A) :
  Blockchain.add_transaction tx self = (Return tt, self') ->
  exists s r a,
    amt_leb a amt_zero = false /\
    (s = SYSTEM \/
     amt_ltb (amt_sub (Blockchain.get_balance self s) (Blockchain.pending_out self s))
             (amt_sub a amt_eps) = false) /\
    self' = Blockchain.set_mempool (Blockchain.mempool self ++ [mkTx s r a]) self.
Proof.
  unfold Blockchain.add_transaction.
  destruct (Blockchain.req_from tx) as [s|]; [|discriminate].
  destruct (Blockchain.req_to tx) as [r|]; [|discriminate].
  destruct (Blockchain.req_amount tx) as [a|]; [|discriminate].
  destruct (Py.is_blank s || Py.is_blank r); [discriminate|].
  destruct (amt_leb a amt_zero) eqn:Ha; [discriminate|].
  case_bool_decide as Hs; simpl.
  - intros Heq. injection Heq as <-. exists s, r, a. auto.
  - destruct (amt_ltb _ _) eqn:Hlt; [discriminate|].
    intros Heq. injection Heq as <-. exists s, r, a. auto.
Qed.

(** ** One more block on a chain that passes the loop *)

Section SnocFacts.
Context {A : Type} `{Amount A}.

Lemma block_checks_first (chain : list (Block.t A)) (b : Block.t A) :
  Block.hash b = Block.calculate_hash b -> Blockchain.block_checks chain 0 b = true.
Proof.
  intros Hb. unfold Blockchain.block_checks. rewrite <- Hb, String.eqb_refl.
  reflexivity.
Qed.

Lemma run_from_snoc (chain : list (Block.t A)) (latest block : Block.t A)
    (balances balances' : gmap string A) :
  run_from chain 0 chain ∅ = Some balances ->
  last chain = Some latest ->
  Block.hash block = Block.calculate_hash block ->
  Block.previous_hash block = Block.hash latest ->
  Block.index block = Z.of_nat (length chain) ->
  DateTime.ltb (Block.timestamp latest) (Block.timestamp block) = true ->
  Blockchain.replay_txs balances (Block.transactions block) = Some balances' ->
  run_from (chain ++ [block]) 0 (chain ++ [block]) ∅ = Some balances'.
Proof.
  intros Hrun Hlast Hhash Hprev Hidx Hlater Hreplay.
  rewrite run_from_app, run_from_prefix by (simpl; lia).
  rewrite Hrun. simpl.
  assert (Hne : (0 < length chain)%nat)
    by (destruct chain; [discriminate | simpl; lia]).
  assert (Hchecks : Blockchain.block_checks (chain ++ [block]) (length chain) block
                    = true).
  { unfold Blockchain.block_checks. rewrite <- Hhash, String.eqb_refl. simpl.
    destruct (Nat.ltb_spec 0 (length chain)); [|lia].
    rewrite lookup_app_l by lia.
    rewrite last_lookup in Hlast.
    replace (length chain - 1)%nat with (pred (length chain)) by lia.
    rewrite Hlast, Hprev, String.eqb_refl, Hidx, Z.eqb_refl. simpl.
    destruct (DateTime.leb (Block.timestamp block) (Block.timestamp latest)) eqn:Hle;
      [|reflexivity].
    apply not_ltb_leb in Hle. congruence. }
  rewrite Hchecks, Hreplay. reflexivity.
Qed.

Lemma replay_system (balances : gmap string A) (tx : Transaction A) :
  tx_from tx = SYSTEM -> amt_ltb (tx_amount tx) amt_zero = false ->
  exists balances', Blockchain.replay_tx balances tx = Some balances'.
Proof.
  intros Hs Hpos. unfold Blockchain.replay_tx. rewrite Hpos.
  rewrite bool_decide_eq_true_2 by exact Hs. eauto.
Qed.


Lemma genesis_idle difficulty (reward : A) capacity :
  amt_ltb (amt_of_int 5000) amt_zero = false ->
  amt_ltb reward amt_zero = false ->
  idle (Blockchain.init difficulty reward capacity).
Proof.
  intros Hg Hr. split; [reflexivity|]. split; [|exact Hr].
  simpl. rewrite block_checks_first by apply init_consistent.
  destruct (replay_system ∅ (Blockchain.genesis_tx (A:=A)) eq_refl Hg) as [b Hb].
  change (Block.transactions Blockchain.create_genesis_block)
    with [Blockchain.genesis_tx (A:=A)].
  simpl. rewrite Hb. eauto.
Qed.

Lemma mine_idle fuel now miner latest block (self self' : Blockchain.t A) :
  Blockchain.get_latest_block self = Some latest ->
  advancing_clock (Block.timestamp latest) now ->
  Blockchain.mine_block fuel now miner self = Some (Return block, self') ->
  idle self -> idle self'.
Proof.
  intros Hlast Hclock Hmine (Hpool & [balances Hrun] & Hrew).
  apply mine_block_success in Hmine
    as (latest' & Hlast' & Htxs & Hidx & Hprev & Hts & Hhash & _ & ->).
  rewrite Hlast in Hlast'. injection Hlast' as <-.
  rewrite Hpool in Htxs.
  assert (Hnil : Py.list_prefix (Blockchain.block_capacity self)
                   ([] : list (Transaction A)) = []).
  { unfold Py.list_prefix. destruct (0 <=? _); apply take_nil. }
  rewrite Hnil in Htxs. simpl in Htxs.
  split; [|split; [|exact Hrew]].
  - simpl. rewrite Hpool. reflexivity.
  - simpl.
    destruct (replay_system balances
                (mkTx SYSTEM miner (Blockchain.mining_reward self)) eq_refl Hrew)
      as [b' Hb'].
    exists b'. eapply run_from_snoc; try eassumption.
    + rewrite Hts. exact Hclock.
    + rewrite Htxs. simpl. rewrite Hb'. reflexivity.
Qed.

Lemma idle_valid (self : Blockchain.t A) :
  idle self -> Blockchain.is_chain_valid None self = true.
Proof.
  intros (_ & [balances Hrun] & _). unfold Blockchain.is_chain_valid. simpl.
  rewrite valid_from_run, Hrun. reflexivity.
Qed.
End SnocFacts.

Lemma reachable_any_clock {A : Type} `{Amount A}
    (clock_ok : DateTime.t -> DateTime.t -> Prop) (start self : Blockchain.t A) :
  reachable clock_ok start self -> reachable any_clock start self.
Proof.
  induction 1 as [|self self' _ IH Hstep]; [constructor|].
  apply (reach_step _ _ self); [exact IH|].
  destruct Hstep as [tx self self' Hadd | fuel now miner latest block self self' Hl _ Hm].
  - eapply step_add, Hadd.
  - eapply step_mine; [exact Hl | exact I | exact Hm].
Qed.

(** C3: a chain that the ledger has produced itself, and that its own
    [is_chain_valid] rejects.  On a fresh ledger with the default settings
    [add_transaction] admits three transfers from "genesis", of 0.1, 0.3 and
    4999.600000001001, and [mine_block] puts them in a block, at a clock
    reading later than the genesis instant.  The admission of the third
    transfer compares 5000.0 - (0.1 + 0.3) = 4999.6 with the amount less
    1e-9; the replay of [is_chain_valid] compares (5000.0 - 0.1) - 0.3 =
    4999.599999999999 with the same bound, and refuses the transfer. *)
Theorem honest_chain_rejected :
  let amount := 0x1.3879999999de6p+12%float in
  Blockchain.add_transaction Scenario.pay_a Scenario.fresh = (Return tt, Scenario.drift1) /\
  Blockchain.add_transaction Scenario.pay_b Scenario.drift1 = (Return tt, Scenario.drift2) /\
  Blockchain.add_transaction Scenario.pay_c Scenario.drift2 = (Return tt, Scenario.drift3) /\
  (exists block,
      Blockchain.mine_block 1000 Scenario.t1 "heidi" Scenario.drift3
      = Some (Return block, Scenario.drift4)) /\
  reachable advancing_clock Blockchain.fresh Scenario.drift4 /\
  Blockchain.is_chain_valid None Scenario.drift4 = false /\
  Blockchain.replay_txs ∅ (chain_txs (Blockchain.chain Scenario.drift4)) = None /\
  PrimFloat.ltb
    (Blockchain.get_balance Scenario.drift2 "genesis"
     - Blockchain.pending_out Scenario.drift2 "genesis")
    (amount - amt_eps) = false /\
  PrimFloat.ltb
    (Blockchain.get_balance Scenario.drift2 "genesis"
     - 0x1.999999999999ap-4 - 0x1.3333333333333p-2)
    (amount - amt_eps) = true.
Proof.
  intros amount. subst amount.
  assert (Ha : Blockchain.add_transaction Scenario.pay_a Scenario.fresh
               = (Return tt, Scenario.drift1)) by (vm_compute; reflexivity).
  assert (Hb : Blockchain.add_transaction Scenario.pay_b Scenario.drift1
               = (Return tt, Scenario.drift2)) by (vm_compute; reflexivity).
  assert (Hc : Blockchain.add_transaction Scenario.pay_c Scenario.drift2
               = (Return tt, Scenario.drift3)) by (vm_compute; reflexivity).
  eassert (Hm : Blockchain.mine_block 1000 Scenario.t1 "heidi" Scenario.drift3
                = Some (Return _, Scenario.drift4)) by (vm_compute; reflexivity).
  split; [exact Ha|]. split; [exact Hb|]. split; [exact Hc|].
  split; [eexists; exact Hm|]. split; [|repeat split; vm_compute; reflexivity].
  apply (reach_step _ _ Scenario.drift3).
  - apply (reach_step _ _ Scenario.drift2).
    + apply (reach_step _ _ Scenario.drift1).
      * apply (reach_step _ _ Scenario.fresh); [apply reach_start|].
        apply (step_add _ Scenario.pay_a). exact Ha.
      * apply (step_add _ Scenario.pay_b). exact Hb.
    + apply (step_add _ Scenario.pay_c). exact Hc.
  - eapply (step_mine _ 1000 Scenario.t1 "heidi" Scenario.genesis).
    + vm_compute. reflexivity.
    + vm_compute. reflexivity.
    + exact Hm.
Qed.

(** A block created when the clock reads the genesis instant, as on a host
    whose clock was never set, makes the chain of the ledger invalid. *)
Lemma stalled_clock_rejected :
  reachable any_clock Scenario.fresh Scenario.stalled /\
  Blockchain.is_chain_valid None Scenario.stalled = false.
Proof.
  split; [|vm_compute; reflexivity].
  apply (reach_step _ _ Scenario.fresh); [apply reach_start|].
  eapply (step_mine _ 1000 Blockchain.fixed_ts "m" Scenario.genesis).
  - vm_compute. reflexivity.
  - exact I.
  - vm_compute. reflexivity.
Qed.

(** X22: on the arithmetic of the code, [is_chain_valid] accepts the
    genesis-only chain of a fresh ledger and every chain produced from it by
    [mine_block] alone, when each block is created at a clock reading later
    than the stamp of the head and the mining reward is not negative. *)
Theorem mined_chain_valid
    difficulty (reward : float) capacity (self : Blockchain.t float) :
  PrimFloat.ltb reward 0 = false ->
  mined advancing_clock (Blockchain.init difficulty reward capacity) self ->
  Blockchain.is_chain_valid None self = true.
Proof.
  intros Hr Hm. apply idle_valid.
  induction Hm as [|fuel now miner latest block self self' _ IH Hl Hc Hb].
  - apply genesis_idle; [reflexivity | exact Hr].
  - eapply mine_idle; eassumption.
Qed.

Lemma mined_chain_valid_witness :
  mined advancing_clock Scenario.fresh Scenario.mined1 /\
  Blockchain.is_chain_valid None Scenario.mined1 = true.
Proof.
  assert (Hm : mined advancing_clock Scenario.fresh Scenario.mined1).
  { eapply (mined_step _ _ 1000 Scenario.t1 "erin" Scenario.genesis);
      [apply mined_start | vm_compute; reflexivity ..]. }
  split; [exact Hm|].
  apply (mined_chain_valid 3 50%float 100 Scenario.mined1);
    [vm_compute; reflexivity | exact Hm].
Defined.

(** * Further properties *)

(** ** Printing and reading numbers *)

Lemma digit_value_char (d : N) :
  (d < 10)%N -> Iso.digit_value (Py.digit_char d) = Some d.
Proof.
  intros Hd.
  assert (Hcases : d = 0%N \/ d = 1%N \/ d = 2%N \/ d = 3%N \/ d = 4%N \/ d = 5%N \/
                   d = 6%N \/ d = 7%N \/ d = 8%N \/ d = 9%N) by lia.
  repeat (destruct Hcases as [-> | Hcases]; [reflexivity|]). subst. reflexivity.
Qed.

Lemma append_nil (s : string) : EmptyString +:+ s = s.
Proof. reflexivity. Qed.

Lemma append_cons (c : ascii) (s1 s2 : string) : String c s1 +:+ s2 = String c (s1 +:+ s2).
Proof. reflexivity. Qed.

Lemma length_append (s1 s2 : string) :
  String.length (s1 +:+ s2) = (String.length s1 + String.length s2)%nat.
Proof.
  induction s1 as [|c s1 IH]; [reflexivity|].
  rewrite append_cons. simpl. rewrite IH. reflexivity.
Qed.

Lemma append_assoc (s1 s2 s3 : string) : (s1 +:+ s2) +:+ s3 = s1 +:+ (s2 +:+ s3).
Proof.
  induction s1 as [|c s1 IH]; [reflexivity|].
  rewrite !append_cons, IH. reflexivity.
Qed.

(** The decimal digits of [n]: how many there are, and what they read as. *)
Lemma digits_fuel_number (fuel : nat) :
  forall (n : N) (acc : string),
    (n < 2 ^ N.of_nat (S fuel))%N ->
    exists k : nat,
      (0 < k)%nat /\
      ((n = 0%N /\ k = 1%nat) \/ (10 ^ N.of_nat (k - 1) <= n)%N) /\
      String.length (Py.digits_fuel (S fuel) n acc) = (k + String.length acc)%nat /\
      forall a, Iso.number (Py.digits_fuel (S fuel) n acc) a
                = Iso.number acc (a * 10 ^ N.of_nat k + n)%N.
Proof.
  assert (Hone : forall (n : N) (acc : string), (n / 10 = 0)%N ->
            exists k : nat,
              (0 < k)%nat /\
              ((n = 0%N /\ k = 1%nat) \/ (10 ^ N.of_nat (k - 1) <= n)%N) /\
              String.length (String (Py.digit_char (n mod 10)) acc)
              = (k + String.length acc)%nat /\
              forall a, Iso.number (String (Py.digit_char (n mod 10)) acc) a
                        = Iso.number acc (a * 10 ^ N.of_nat k + n)%N).
  { intros n acc Hz.
    assert (Hmod : (n mod 10 < 10)%N) by (apply N.mod_lt; lia).
    pose proof (N.div_mod n 10 ltac:(lia)) as Hdm.
    exists 1%nat. split; [lia|].
    split; [destruct (N.eq_dec n 0%N) as [->|]; [left; auto | right; simpl; lia]|].
    split; [reflexivity|]. intros a.
    cbn [Iso.number]. rewrite digit_value_char by exact Hmod.
    f_equal. change (10 ^ N.of_nat 1)%N with 10%N. lia. }
  induction fuel as [|fuel IH]; intros n acc Hn.
  - assert (Hz : (n / 10 = 0)%N).
    { change (2 ^ N.of_nat 1)%N with 2%N in Hn. apply N.div_small. lia. }
    cbn [Py.digits_fuel]. cbv zeta. rewrite Hz. cbn [N.eqb]. apply Hone, Hz.
  - change (Py.digits_fuel (S (S fuel)) n acc)
      with (let acc' := String (Py.digit_char (n mod 10)) acc in
            if (n / 10 =? 0)%N then acc' else Py.digits_fuel (S fuel) (n / 10)%N acc').
    cbv zeta.
    assert (Hmod : (n mod 10 < 10)%N) by (apply N.mod_lt; lia).
    pose proof (N.div_mod n 10 ltac:(lia)) as Hdm.
    destruct (N.eqb_spec (n / 10)%N 0%N) as [Hz|Hnz]; [apply Hone, Hz|].
    assert (Hq : (n / 10 < 2 ^ N.of_nat (S fuel))%N).
    { rewrite Nat2N.inj_succ, N.pow_succ_r' in Hn.
      assert (n / 10 <= n / 2)%N by (apply N.div_le_compat_l; lia).
      assert (n / 2 < 2 ^ N.of_nat (S fuel))%N by (apply N.Div0.div_lt_upper_bound; lia).
      lia. }
    destruct (IH (n / 10)%N (String (Py.digit_char (n mod 10)) acc) Hq)
      as (k & Hk & Hlow & Hlen & Hnum).
    exists (S k). split; [lia|]. split; [|split].
    + right. replace (S k - 1)%nat with (S (k - 1)) by lia.
      rewrite Nat2N.inj_succ, N.pow_succ_r'.
      destruct Hlow as [[Hq0 _] | Hlow]; [contradiction|].
      generalize dependent (10 ^ N.of_nat (k - 1))%N. intros p Hp. clear - Hdm Hp.
      generalize dependent (n / 10)%N. generalize (n mod 10)%N. intros; lia.
    + rewrite Hlen. simpl. lia.
    + intros a. rewrite Hnum. cbn [Iso.number].
      rewrite digit_value_char by exact Hmod. f_equal.
      rewrite Nat2N.inj_succ, N.pow_succ_r'. lia.
Qed.

Lemma str_of_N_number (n : N) :
  exists k : nat,
    (0 < k)%nat /\
    ((n = 0%N /\ k = 1%nat) \/ (10 ^ N.of_nat (k - 1) <= n)%N) /\
    String.length (Py.str_of_N n) = k /\
    Iso.number (Py.str_of_N n) 0 = Some n.
Proof.
  unfold Py.str_of_N.
  destruct (digits_fuel_number (N.to_nat (N.log2 n)) n "") as (k & Hk & Hlow & Hlen & Hnum).
  - rewrite Nat2N.inj_succ, N2Nat.id.
    destruct (N.eq_dec n 0%N) as [->|Hn]; [reflexivity|].
    apply N.log2_spec. lia.
  - exists k. repeat split; try assumption.
    + rewrite Hlen. simpl. lia.
    + rewrite Hnum. simpl. reflexivity.
Qed.

Lemma number_zeros (m : nat) (s : string) :
  Iso.number (string_of_list_ascii (repeat "0"%char m) +:+ s) 0 = Iso.number s 0.
Proof. induction m as [|m IH]; [reflexivity | exact IH]. Qed.

(** A number below [10^w] is printed on exactly [w] digits that read back
    as the number. *)
Lemma zero_pad_number (w : nat) (n : N) :
  (0 < w)%nat -> (n < 10 ^ N.of_nat w)%N ->
  String.length (Py.zero_pad w n) = w /\ Iso.number (Py.zero_pad w n) 0 = Some n.
Proof.
  intros Hw Hn. unfold Py.zero_pad.
  destruct (str_of_N_number n) as (k & Hk & Hlow & Hlen & Hnum).
  assert (Hkw : (k <= w)%nat).
  { destruct Hlow as [[_ ->] | Hlow]; [lia|].
    assert (Hpow : (10 ^ N.of_nat (k - 1) < 10 ^ N.of_nat w)%N) by lia.
    apply N.pow_lt_mono_r_iff in Hpow; lia. }
  cbv zeta. rewrite Hlen. unfold Py.str_repeat.
  rewrite Nat2Z.id. split.
  - rewrite length_append, Hlen.
    assert (Hrep : forall m, String.length (string_of_list_ascii (repeat "0"%char m)) = m)
      by (induction m; simpl; congruence).
    rewrite Hrep. lia.
  - rewrite number_zeros. exact Hnum.
Qed.

Lemma cut_app (p rest : string) : Iso.cut (String.length p) (p +:+ rest) = Some (p, rest).
Proof.
  induction p as [|c p IH]; [destruct rest; reflexivity|].
  rewrite append_cons. simpl. rewrite IH. reflexivity.
Qed.

Lemma expect_app (lit rest : string) : Iso.expect lit (lit +:+ rest) = Some rest.
Proof. unfold Iso.expect. rewrite cut_app, String.eqb_refl. reflexivity. Qed.

Lemma field_zero_pad (w : nat) (n : N) (rest : string) :
  (0 < w)%nat -> (n < 10 ^ N.of_nat w)%N ->
  Iso.field w (Py.zero_pad w n +:+ rest) = Some (n, rest).
Proof.
  intros Hw Hn. destruct (zero_pad_number w n Hw Hn) as [Hlen Hnum].
  unfold Iso.field. rewrite <- Hlen at 1. rewrite cut_app, Hnum. reflexivity.
Qed.

(** A separator is not mistaken for the start of a fraction. *)
Lemma expect_dot_offset : Iso.expect "." Iso.utc_offset = None.
Proof. reflexivity. Qed.

(** [read] recognises what [isoformat] writes. *)
Lemma read_isoformat (d : DateTime.t) :
  Iso.valid d = true -> Iso.read (DateTime.isoformat d) = Some d.
Proof.
  intros Hv. pose proof Hv as Hr. unfold Iso.valid in Hr.
  repeat (apply andb_prop in Hr as [Hr ?]).
  repeat match goal with
         | H : (_ <=? _)%N = true |- _ => apply N.leb_le in H
         | H : (_ <? _)%N = true |- _ => apply N.ltb_lt in H
         end.
  assert (Hd : (DateTime.day d <= 31)%N).
  { unfold Iso.days_in_month in *.
    destruct (DateTime.month d =? 2)%N; [destruct (Iso.is_leap _); lia|].
    destruct (_ || _); lia. }
  unfold Iso.read, DateTime.isoformat.
  rewrite field_zero_pad by (try lia; change (10 ^ N.of_nat 4)%N with 10000%N; lia).
  rewrite expect_app.
  rewrite field_zero_pad by (try lia; change (10 ^ N.of_nat 2)%N with 100%N; lia).
  rewrite expect_app.
  rewrite field_zero_pad by (try lia; change (10 ^ N.of_nat 2)%N with 100%N; lia).
  rewrite expect_app.
  rewrite field_zero_pad by (try lia; change (10 ^ N.of_nat 2)%N with 100%N; lia).
  rewrite expect_app.
  rewrite field_zero_pad by (try lia; change (10 ^ N.of_nat 2)%N with 100%N; lia).
  rewrite expect_app.
  rewrite field_zero_pad by (try lia; change (10 ^ N.of_nat 2)%N with 100%N; lia).
  cbv zeta.
  destruct (N.eqb_spec (DateTime.microsecond d) 0%N) as [Hus|Hus].
  - rewrite append_nil. fold Iso.utc_offset. rewrite expect_dot_offset.
    change (String.eqb Iso.utc_offset Iso.utc_offset) with true. cbv iota.
    rewrite <- Hus. destruct d; cbn in *. rewrite Hv. reflexivity.
  - rewrite append_assoc, expect_app.
    rewrite field_zero_pad by (try lia; change (10 ^ N.of_nat 6)%N with 1000000%N; lia).
    change (String.eqb "+00:00" Iso.utc_offset) with true. cbv iota.
    destruct d; cbn in *. rewrite Hv. reflexivity.
Qed.

(** ** Records of blocks *)

Section WireFacts.
Context {A : Type} `{Amount A}.

Lemma rebuild_block (b : Block.t A) :
  Block.set_hash (Block.hash b)
    (Block.set_nonce (Block.nonce b)
       (Block.init (Block.index b) (Block.previous_hash b) (Block.transactions b)
                   (Block.timestamp b)))
  = b.
Proof. destruct b. reflexivity. Qed.
End WireFacts.

(** [fromisoformat] reads back what [isoformat] writes. *)
Lemma fromisoformat_isoformat (d : DateTime.t) :
  Iso.valid d = true -> Iso.fromisoformat (DateTime.isoformat d) = Iso.Instant d.
Proof. intros Hv. unfold Iso.fromisoformat. rewrite (read_isoformat _ Hv). reflexivity. Qed.

(** A block comes back from its record. *)
Lemma decode_encode {A : Type} `{Amount A} (b : Block.t A) :
  Iso.valid (Block.timestamp b) = true ->
  Wire.from_dict (Wire.to_dict b) = Wire.Read b.
Proof.
  intros Hv. unfold Wire.from_dict, Wire.to_dict. simpl.
  rewrite (fromisoformat_isoformat _ Hv). simpl.
  rewrite rebuild_block. reflexivity.
Qed.

(** X1: a chain whose timestamps are well-formed UTC instants comes back
    unchanged from [Blockchain.to_dict] followed by [Block.from_dict] on
    each record: every field of every block, stored hash included. *)
Theorem from_dict_to_dict {A : Type} `{Amount A} (self : Blockchain.t A) :
  (forall b, b ∈ Blockchain.chain self -> Iso.valid (Block.timestamp b) = true) ->
  Wire.chain_from_dict (Wire.chain_to_dict self) = Wire.Read (Blockchain.chain self).
Proof.
  unfold Wire.chain_to_dict.
  induction (Blockchain.chain self) as [|b chain IH]; intros Hall; [reflexivity|].
  simpl. rewrite decode_encode by (apply Hall, list_elem_of_here).
  rewrite IH by (intros b' Hb'; apply Hall, list_elem_of_further, Hb').
  reflexivity.
Qed.

Lemma from_dict_to_dict_witness :
  Wire.chain_from_dict (Wire.chain_to_dict Scenario.mined1)
  = Wire.Read (Blockchain.chain Scenario.mined1).
Proof.
  apply from_dict_to_dict. intros b Hb.
  apply list_elem_of_In in Hb. simpl in Hb.
  destruct Hb as [<- | [<- | []]]; reflexivity.
Defined.

(** ** The length of a hash *)

Lemma length_round (st : list int) (kw : int * int) :
  length (SHA256.round st kw) = length st.
Proof.
  unfold SHA256.round.
  repeat (destruct st as [|? st]; try reflexivity).
Qed.

Lemma length_rounds (kws : list (int * int)) :
  forall st, length (fold_left SHA256.round kws st) = length st.
Proof.
  induction kws as [|kw kws IH]; intros st; simpl; [reflexivity|].
  rewrite IH. apply length_round.
Qed.

Lemma length_compress (h block : list int) :
  length (SHA256.compress h block) = length h.
Proof.
  unfold SHA256.compress. rewrite length_map, length_combine, length_rounds. lia.
Qed.

Lemma length_blocks (fuel : nat) :
  forall h bs, length (SHA256.blocks fuel h bs) = length h.
Proof.
  induction fuel as [|fuel IH]; intros h bs; simpl; [reflexivity|].
  destruct bs; [reflexivity|]. rewrite IH. apply length_compress.
Qed.

Lemma length_digest (msg : list int) : length (SHA256.digest msg) = 8%nat.
Proof. unfold SHA256.digest. rewrite length_blocks. reflexivity. Qed.

Lemma hex_char_is_hex (d : N) : (d < 16)%N -> is_hex (SHA256.hex_char d) = true.
Proof.
  intros Hd.
  assert (Hcases : d = 0%N \/ d = 1%N \/ d = 2%N \/ d = 3%N \/ d = 4%N \/ d = 5%N \/
                   d = 6%N \/ d = 7%N \/ d = 8%N \/ d = 9%N \/ d = 10%N \/ d = 11%N \/
                   d = 12%N \/ d = 13%N \/ d = 14%N \/ d = 15%N) by lia.
  repeat (destruct Hcases as [-> | Hcases]; [reflexivity|]). subst. reflexivity.
Qed.

Lemma land_15 (x : N) : (N.land x 15 < 16)%N.
Proof.
  change 15%N with (N.ones 4). rewrite N.land_ones.
  apply N.mod_lt. discriminate.
Qed.

Lemma hex_digits_spec (n : nat) (x : N) :
  String.length (SHA256.hex_digits n x) = n /\ all_hex (SHA256.hex_digits n x) = true.
Proof.
  induction n as [|n [IHl IHh]]; [split; reflexivity|].
  cbn [SHA256.hex_digits String.length all_hex]. rewrite IHl, IHh.
  rewrite hex_char_is_hex by apply land_15. split; reflexivity.
Qed.

Lemma all_hex_app (s1 s2 : string) :
  all_hex (s1 +:+ s2) = all_hex s1 && all_hex s2.
Proof.
  induction s1 as [|c s1 IH]; [reflexivity|].
  rewrite append_cons. cbn [all_hex]. rewrite IH, andb_assoc. reflexivity.
Qed.

Lemma hexdigest_spec (s : string) :
  String.length (SHA256.hexdigest s) = 64%nat /\ all_hex (SHA256.hexdigest s) = true.
Proof.
  unfold SHA256.hexdigest. cbv zeta.
  pose proof (length_digest (map SHA256.byte_of_ascii (list_ascii_of_string s))) as Hl.
  revert Hl. generalize (SHA256.digest (map SHA256.byte_of_ascii (list_ascii_of_string s))).
  intros ws Hl.
  assert (Hgen : String.length
                   (fold_right (fun w acc => SHA256.hex_digits 8 (Z.to_N (Uint63.to_Z w)) +:+ acc)
                               EmptyString ws) = (8 * length ws)%nat /\
                 all_hex
                   (fold_right (fun w acc => SHA256.hex_digits 8 (Z.to_N (Uint63.to_Z w)) +:+ acc)
                               EmptyString ws) = true).
  { clear Hl. induction ws as [|w ws [IHl IHh]]; [split; reflexivity|].
    cbn [fold_right length].
    destruct (hex_digits_spec 8 (Z.to_N (Uint63.to_Z w))) as [Hl8 Hh8].
    rewrite length_append, all_hex_app, IHl, IHh, Hl8, Hh8. split; [lia | reflexivity]. }
  rewrite Hl in Hgen. exact Hgen.
Qed.

(** X2: the hash of a block is a string of 64 characters, each of them
    one of [0-9a-f], whatever the block holds; this is so of the hash a
    block stores when it is built, and of the hash it stores when
    [mine_block] returns it, if it was so when the search began. *)
Theorem block_hash_hex64 {A : Type} `{Amount A} :
  let hex64 (s : string) := String.length s = 64%nat /\ all_hex s = true in
  (forall b : Block.t A, hex64 (Block.calculate_hash b)) /\
  (forall index prev (txs : list (Transaction A)) ts,
      hex64 (Block.hash (Block.init index prev txs ts))) /\
  (forall fuel difficulty (b b' : Block.t A),
      Block.mine_block fuel difficulty b = Some b' ->
      hex64 (Block.hash b) -> hex64 (Block.hash b')).
Proof.
  intros hex64. subst hex64. cbv beta. split; [|split].
  - intros b. apply hexdigest_spec.
  - intros index prev txs ts. rewrite init_consistent. apply hexdigest_spec.
  - intros fuel difficulty b b' Hm Hb.
    destruct (mine_block_inv _ _ _ _ Hm) as (_ & _ & [-> | ->]);
      [exact Hb | apply hexdigest_spec].
Qed.

Lemma block_hash_hex64_witness :
  String.length (Block.hash Network.erin_block) = 64%nat /\
  all_hex (Block.hash Network.erin_block) = true.
Proof.
  assert (Hm : Block.mine_block 1000 3
                 (Block.init 1 (Block.hash Scenario.genesis)
                    [mkTx SYSTEM "erin" 50%float] Scenario.t1)
               = Some Network.erin_block) by (vm_compute; reflexivity).
  apply (proj2 (proj2 block_hash_hex64) _ _ _ _ Hm).
  apply (proj1 (proj2 block_hash_hex64)).
Defined.

(** ** Targets that no hash meets, and targets that every hash meets *)

Section TargetFacts.
Context {A : Type} `{Amount A}.
Implicit Types b : Block.t A.






End TargetFacts.





(** ** The balances of the validator and those of [get_balance] *)

Section AgreementFacts.
Context {A : Type} `{Amount A}.
Implicit Types (tx : Transaction A) (txs : list (Transaction A)).
Implicit Types (balances : gmap string A) (a : string).
Implicit Types (chain rest : list (Block.t A)).

(** One transaction moves the entry of [a] in the dict of the validator
    as it moves the running balance of [get_balance(a)], operation for
    operation. *)
Lemma replay_tx_balance balances tx balances' a :
  Blockchain.replay_tx balances tx = Some balances' ->
  default amt_zero (balances' !! a)
  = Blockchain.balance_tx a (default amt_zero (balances !! a)) tx.
Proof.
  unfold Blockchain.replay_tx, Blockchain.balance_tx.
  destruct (amt_ltb (tx_amount tx) amt_zero); [discriminate|].
  destruct (decide (tx_from tx = SYSTEM)) as [Hs|Hs].
  - rewrite (bool_decide_eq_true_2 _ Hs). simpl. rewrite andb_false_r.
    intros Heq. injection Heq as <-.
    destruct (decide (tx_to tx = a)) as [Ht|Ht].
    + rewrite (bool_decide_eq_true_2 _ Ht). subst a.
      rewrite lookup_insert_eq. reflexivity.
    + rewrite (bool_decide_eq_false_2 _ Ht).
      rewrite lookup_insert_ne by exact Ht. reflexivity.
  - rewrite (bool_decide_eq_false_2 _ Hs). simpl. rewrite andb_true_r.
    rewrite lookup_insert_eq. simpl.
    destruct (amt_ltb (default amt_zero (balances !! tx_from tx)) _); [discriminate|].
    intros Heq. injection Heq as <-.
    destruct (decide (tx_to tx = a)) as [Ht|Ht];
      destruct (decide (tx_from tx = a)) as [Hf|Hf].
    + rewrite (bool_decide_eq_true_2 _ Ht), (bool_decide_eq_true_2 _ Hf).
      subst a. rewrite <- Hf. rewrite !lookup_insert_eq. reflexivity.
    + rewrite (bool_decide_eq_true_2 _ Ht), (bool_decide_eq_false_2 _ Hf).
      subst a. rewrite lookup_insert_eq.
      rewrite !lookup_insert_ne by exact Hf. reflexivity.
    + rewrite (bool_decide_eq_false_2 _ Ht), (bool_decide_eq_true_2 _ Hf).
      rewrite lookup_insert_ne by exact Ht. subst a.
      rewrite lookup_insert_eq. reflexivity.
    + rewrite (bool_decide_eq_false_2 _ Ht), (bool_decide_eq_false_2 _ Hf).
      rewrite !lookup_insert_ne by assumption. reflexivity.
Qed.

Lemma replay_txs_balance txs :
  forall balances balances' a,
    Blockchain.replay_txs balances txs = Some balances' ->
    default amt_zero (balances' !! a)
    = fold_left (Blockchain.balance_tx a) txs (default amt_zero (balances !! a)).
Proof.
  induction txs as [|tx txs IH]; intros balances balances' a Hr; simpl in *.
  - injection Hr as <-. reflexivity.
  - destruct (Blockchain.replay_tx balances tx) as [b1|] eqn:Ht; [|discriminate].
    rewrite (IH _ _ a Hr), (replay_tx_balance _ _ _ a Ht). reflexivity.
Qed.

Lemma is_chain_valid_run (arg : option (list (Block.t A))) (self : Blockchain.t A) :
  Blockchain.is_chain_valid arg self = true ->
  exists balances,
    run_from (Blockchain.chain_or_own arg self) 0 (Blockchain.chain_or_own arg self) ∅
    = Some balances.
Proof.
  unfold Blockchain.is_chain_valid. cbv zeta. rewrite valid_from_run.
  destruct (run_from _ _ _ _) as [balances|]; [eauto | discriminate].
Qed.

Lemma run_is_chain_valid (arg : option (list (Block.t A))) (self : Blockchain.t A) balances :
  run_from (Blockchain.chain_or_own arg self) 0 (Blockchain.chain_or_own arg self) ∅
  = Some balances ->
  Blockchain.is_chain_valid arg self = true.
Proof.
  intros Hr. unfold Blockchain.is_chain_valid. cbv zeta.
  rewrite valid_from_run, Hr. reflexivity.
Qed.

(** A chain that is not empty is judged on its own: the ledger asked does
    not enter the answer. *)
Lemma is_chain_valid_own (chain : list (Block.t A)) (self other : Blockchain.t A) :
  chain <> [] ->
  Blockchain.is_chain_valid (Some chain) self
  = Blockchain.is_chain_valid None (Blockchain.set_chain chain other).
Proof. destruct chain; [congruence | reflexivity]. Qed.

Lemma valid_prefix (c1 c2 : list (Block.t A)) (self : Blockchain.t A) :
  c1 <> [] ->
  Blockchain.is_chain_valid (Some (c1 ++ c2)) self = true ->
  Blockchain.is_chain_valid (Some c1) self = true.
Proof.
  intros Hne Hv. apply is_chain_valid_run in Hv as [balances Hr].
  assert (Hown : forall c, c <> [] -> Blockchain.chain_or_own (Some c) self = c)
    by (intros [|? ?]; [congruence | reflexivity]).
  rewrite Hown in Hr by (destruct c1; [congruence | discriminate]).
  rewrite run_from_app in Hr.
  rewrite run_from_prefix in Hr by (simpl; lia).
  destruct (run_from c1 0 c1 ∅) as [b1|] eqn:H1; [|discriminate].
  apply (run_is_chain_valid _ _ b1). rewrite Hown by exact Hne. exact H1.
Qed.

(** The loop runs to its end when each block passes its checks and the
    transactions replay. *)
Lemma run_from_complete chain :
  (forall i b, chain !! i = Some b -> Block.hash b = Block.calculate_hash b) ->
  (forall i prev b,
      chain !! i = Some prev -> chain !! S i = Some b ->
      Block.previous_hash b = Block.hash prev /\
      Block.index b = Z.of_nat (S i) /\
      DateTime.ltb (Block.timestamp prev) (Block.timestamp b) = true) ->
  forall rest pre balances,
    chain = pre ++ rest ->
    is_Some (Blockchain.replay_txs balances (chain_txs rest)) ->
    is_Some (run_from chain (length pre) rest balances).
Proof.
  intros Hhash Hlink.
  induction rest as [|b rest IH]; intros pre balances Hc Hr; simpl; [eauto|].
  assert (Hb : chain !! length pre = Some b) by (rewrite Hc; apply list_lookup_middle; reflexivity).
  assert (Hchecks : Blockchain.block_checks chain (length pre) b = true).
  { unfold Blockchain.block_checks.
    rewrite <- (Hhash _ _ Hb), String.eqb_refl. simpl.
    destruct (Nat.ltb_spec 0 (length pre)) as [Hpos|]; [|reflexivity].
    destruct (chain !! (length pre - 1)%nat) as [prev|] eqn:Hp.
    - replace (length pre) with (S (length pre - 1)) in Hb by lia.
      destruct (Hlink _ _ _ Hp Hb) as (Hph & Hi & Hts).
      replace (S (length pre - 1)) with (length pre) in Hi by lia.
      rewrite Hph, String.eqb_refl, Hi, Z.eqb_refl. simpl.
      destruct (DateTime.leb (Block.timestamp b) (Block.timestamp prev)) eqn:Hle;
        [|reflexivity].
      apply not_ltb_leb in Hle. congruence.
    - apply lookup_ge_None in Hp. apply lookup_lt_Some in Hb. lia. }
  rewrite Hchecks.
  simpl in Hr. fold (chain_txs rest) in Hr. rewrite replay_txs_app in Hr.
  destruct (Blockchain.replay_txs balances (Block.transactions b)) as [b1|];
    [|destruct Hr; discriminate].
  replace (S (length pre)) with (length (pre ++ [b])) by (rewrite length_app; simpl; lia).
  apply IH; [|exact Hr]. rewrite <- app_assoc. exact Hc.
Qed.
End AgreementFacts.

(** X5: when [is_chain_valid] accepts a chain, the balances it has
    computed are those [get_balance] gives on that chain, for every
    address and on every arithmetic: the two loops apply the same
    operations in the same order. *)
Theorem validation_balances_are_get_balance {A : Type} `{Amount A}
    (self : Blockchain.t A) (arg : option (list (Block.t A))) :
  Blockchain.is_chain_valid arg self = true ->
  let chain := Blockchain.chain_or_own arg self in
  exists balances,
    Blockchain.replay_txs ∅ (chain_txs chain) = Some balances /\
    forall address,
      default amt_zero (balances !! address)
      = Blockchain.get_balance (Blockchain.set_chain chain self) address.
Proof.
  intros Hv chain. apply is_chain_valid_run in Hv as [balances Hr].
  apply run_from_replay in Hr. exists balances. split; [exact Hr|].
  intros address. rewrite (replay_txs_balance _ _ _ address Hr).
  unfold Blockchain.get_balance. simpl. rewrite balance_chain_txs, lookup_empty.
  reflexivity.
Qed.

Lemma validation_balances_are_get_balance_witness :
  exists balances,
    Blockchain.replay_txs ∅ (chain_txs (Blockchain.chain Scenario.mined1)) = Some balances /\
    default amt_zero (balances !! "erin")
    = Blockchain.get_balance Scenario.mined1 "erin".
Proof.
  destruct (validation_balances_are_get_balance Scenario.mined1 None)
    as (balances & Hr & Hb); [vm_compute; reflexivity|].
  exists balances. split; [exact Hr | apply (Hb "erin")].
Defined.

(** X6: [is_chain_valid] answers [True] exactly when every block stores
    the hash of its content, every block but the first names the hash of
    the block before it, carries its position as index and a later
    timestamp, and all the transactions of the chain, replayed in order
    from no balances at all, are neither negative nor beyond the funds of
    their sender. *)
Theorem is_chain_valid_iff {A : Type} `{Amount A}
    (self : Blockchain.t A) (arg : option (list (Block.t A))) :
  let chain := Blockchain.chain_or_own arg self in
  Blockchain.is_chain_valid arg self = true <->
  (forall i b, chain !! i = Some b -> Block.hash b = Block.calculate_hash b) /\
  (forall i prev b,
      chain !! i = Some prev -> chain !! S i = Some b ->
      Block.previous_hash b = Block.hash prev /\
      Block.index b = Z.of_nat (S i) /\
      DateTime.ltb (Block.timestamp prev) (Block.timestamp b) = true) /\
  is_Some (Blockchain.replay_txs ∅ (chain_txs chain)).
Proof.
  intros chain. split.
  - intros Hv. pose proof Hv as Hrun. apply is_chain_valid_run in Hrun as [balances Hr].
    fold chain in Hr.
    unfold Blockchain.is_chain_valid in Hv. cbv zeta in Hv. fold chain in Hv.
    pose proof (valid_from_inv chain chain 0 ∅ Hv) as Hinv.
    split; [|split].
    + intros i b Hb. destruct (Hinv _ _ Hb) as [Hc _].
      eapply block_checks_hash, Hc.
    + intros i prev b Hp Hb. destruct (Hinv _ _ Hb) as [Hc _].
      apply (block_checks_succ _ _ _ _ Hp) in Hc as (_ & Hph & Hi & Hts).
      repeat split; try assumption.
      destruct (DateTime.ltb (Block.timestamp prev) (Block.timestamp b)) eqn:Hlt;
        [reflexivity|].
      apply not_ltb_leb in Hlt. congruence.
    + apply run_from_replay in Hr. eauto.
  - intros (Hhash & Hlink & Hr).
    destruct (run_from_complete chain Hhash Hlink chain [] ∅ eq_refl Hr) as [balances Hb].
    apply (run_is_chain_valid _ _ balances). exact Hb.
Qed.

Lemma is_chain_valid_iff_witness :
  Block.previous_hash Network.erin_block = Block.hash Scenario.genesis /\
  DateTime.ltb (Block.timestamp Scenario.genesis) (Block.timestamp Network.erin_block)
  = true.
Proof.
  assert (Hv : Blockchain.is_chain_valid None Scenario.mined1 = true)
    by (vm_compute; reflexivity).
  apply (proj1 (is_chain_valid_iff Scenario.mined1 None)) in Hv.
  destruct Hv as (_ & Hlink & _).
  destruct (Hlink 0%nat Scenario.genesis Network.erin_block) as (Hp & _ & Hts);
    [reflexivity | vm_compute; reflexivity |].
  split; assumption.
Defined.

(** ** The handlers of the node *)

Section NodeFacts.
Context {A : Type} `{Amount A}.
Implicit Types (self peer : Blockchain.t A) (block latest : Block.t A).
Implicit Types (chain longest : list (Block.t A)).
Implicit Types (answer : option (list (Block.t A))).

Lemma chain_or_own_some chain self :
  chain <> [] -> Blockchain.chain_or_own (Some chain) self = chain.
Proof. destruct chain; [congruence | reflexivity]. Qed.

Lemma is_chain_valid_installed chain self self' :
  chain <> [] -> Blockchain.chain self' = chain ->
  Blockchain.is_chain_valid None self' = Blockchain.is_chain_valid (Some chain) self.
Proof.
  intros Hne Hc. unfold Blockchain.is_chain_valid.
  rewrite chain_or_own_some by exact Hne. simpl. rewrite Hc. reflexivity.
Qed.

Lemma snoc_not_nil {X} (l : list X) (x : X) : l ++ [x] <> [].
Proof. destruct l; discriminate. Qed.

(** What the validator has checked on the last block of a chain. *)
Lemma valid_snoc_inv chain block latest self :
  last chain = Some latest ->
  Blockchain.is_chain_valid (Some (chain ++ [block])) self = true ->
  Block.hash block = Block.calculate_hash block /\
  Block.previous_hash block = Block.hash latest /\
  Block.index block = Z.of_nat (length chain) /\
  DateTime.ltb (Block.timestamp latest) (Block.timestamp block) = true.
Proof.
  intros Hlast Hv.
  unfold Blockchain.is_chain_valid in Hv.
  rewrite chain_or_own_some in Hv by apply snoc_not_nil.
  assert (Hpos : (0 < length chain)%nat) by (destruct chain; [discriminate | simpl; lia]).
  rewrite last_lookup in Hlast.
  assert (Hp : (chain ++ [block]) !! (length chain - 1)%nat = Some latest).
  { rewrite lookup_app_l by lia.
    replace (length chain - 1)%nat with (pred (length chain)) by lia. exact Hlast. }
  assert (Hb : (chain ++ [block]) !! length chain = Some block)
    by (apply list_lookup_middle; reflexivity).
  destruct (valid_from_inv _ _ _ _ Hv _ _ Hb) as [Hc _]. simpl in Hc.
  assert (Hc' : Blockchain.block_checks (chain ++ [block]) (S (length chain - 1)) block
                = true)
    by (replace (S (length chain - 1)) with (length chain) by lia; exact Hc).
  apply (block_checks_succ _ _ _ _ Hp) in Hc' as (Hh & Hph & Hi & Hts).
  replace (S (length chain - 1)) with (length chain) in Hi by lia.
  repeat split; try assumption.
  destruct (DateTime.ltb (Block.timestamp latest) (Block.timestamp block)) eqn:Hlt;
    [reflexivity|].
  apply not_ltb_leb in Hlt. congruence.
Qed.

Lemma receive_block_inv decoded self :
  Node.receive_block decoded self = (false, self) \/
  exists block latest,
    decoded = Some block /\
    Blockchain.get_latest_block self = Some latest /\
    Block.previous_hash block = Block.hash latest /\
    Blockchain.is_chain_valid (Some (Blockchain.chain self ++ [block])) self = true /\
    Node.receive_block decoded self
    = (true,
       Blockchain.set_mempool
         (Blockchain.prune (Blockchain.included (Block.transactions block))
                           (Blockchain.mempool self))
         (Blockchain.set_chain (Blockchain.chain self ++ [block]) self)).
Proof.
  unfold Node.receive_block.
  destruct decoded as [block|]; [|left; reflexivity].
  destruct (Blockchain.get_latest_block self) as [latest|]; [|left; reflexivity].
  destruct (String.eqb_spec (Block.previous_hash block) (Block.hash latest)) as [Hp|];
    [|left; reflexivity].
  destruct (Blockchain.is_chain_valid _ self) eqn:Hv; [|left; reflexivity].
  right. exists block, latest. simpl. auto.
Qed.

(** The fold of [sync]: what it ends on. *)
Lemma visit_candidate self longest answer :
  Node.visit self longest answer
  = match Node.candidate self answer with
    | Some chain => if (length longest <? length chain)%nat then chain else longest
    | None => longest
    end.
Proof.
  unfold Node.visit, Node.candidate.
  destruct answer as [chain|]; [|reflexivity].
  destruct (Blockchain.is_chain_valid (Some chain) self);
    [rewrite andb_true_r | rewrite andb_false_r]; reflexivity.
Qed.

Lemma longest_spec self answers :
  forall start,
    let longest := fold_left (Node.visit self) answers start in
    (length start <= length longest)%nat /\
    (forall answer chain,
        answer ∈ answers -> Node.candidate self answer = Some chain ->
        (length chain <= length longest)%nat) /\
    (longest = start \/
     exists answer, answer ∈ answers /\ Node.candidate self answer = Some longest /\
                    (length start < length longest)%nat).
Proof.
  induction answers as [|answer answers IH]; intros start; simpl.
  - split; [lia|]. split; [|left; reflexivity].
    intros answer chain Hin. inversion Hin.
  - destruct (IH (Node.visit self start answer)) as (Hge & Hall & Hfrom).
    rewrite visit_candidate in Hge, Hall, Hfrom |- *.
    destruct (Node.candidate self answer) as [c|] eqn:Hc.
    + destruct (Nat.ltb_spec (length start) (length c)) as [Hlt|Hle].
      * split; [lia|]. split.
        -- intros answer' chain Hin Hcand.
           apply elem_of_cons in Hin as [-> | Hin]; [|eapply Hall; eassumption].
           rewrite Hc in Hcand. injection Hcand as <-. exact Hge.
        -- right. destruct Hfrom as [Heq | (answer' & Hin & Hcand & Hlen)].
           ++ exists answer. rewrite Heq.
              split; [apply list_elem_of_here|]. split; [exact Hc | exact Hlt].
           ++ exists answer'. split; [apply list_elem_of_further, Hin|].
              split; [exact Hcand | lia].
      * split; [exact Hge|]. split.
        -- intros answer' chain Hin Hcand.
           apply elem_of_cons in Hin as [-> | Hin]; [|eapply Hall; eassumption].
           rewrite Hc in Hcand. injection Hcand as <-. lia.
        -- destruct Hfrom as [Heq | (answer' & Hin & Hcand & Hlen)]; [left; exact Heq|].
           right. exists answer'. split; [apply list_elem_of_further, Hin | auto].
    + split; [exact Hge|]. split.
      * intros answer' chain Hin Hcand.
        apply elem_of_cons in Hin as [-> | Hin]; [congruence | eapply Hall; eassumption].
      * destruct Hfrom as [Heq | (answer' & Hin & Hcand & Hlen)]; [left; exact Heq|].
        right. exists answer'. split; [apply list_elem_of_further, Hin | auto].
Qed.

Lemma candidate_valid self answer chain :
  Node.candidate self answer = Some chain ->
  Blockchain.is_chain_valid (Some chain) self = true.
Proof.
  unfold Node.candidate. destruct answer as [c|]; [|discriminate].
  destruct (Blockchain.is_chain_valid (Some c) self) eqn:Hv; [|discriminate].
  intros Heq. injection Heq as <-. exact Hv.
Qed.

(** A chain that is not empty is a candidate for one ledger when it is
    for another. *)
Lemma candidate_other self peer answer chain :
  chain <> [] ->
  Node.candidate self answer = Some chain -> Node.candidate peer answer = Some chain.
Proof.
  unfold Node.candidate. destruct answer as [c|]; [|discriminate].
  intros Hne.
  destruct (Blockchain.is_chain_valid (Some c) self) eqn:Hv; [|discriminate].
  intros Heq. injection Heq as ->.
  rewrite (is_chain_valid_own chain peer self Hne).
  rewrite <- (is_chain_valid_own chain self self Hne), Hv. reflexivity.
Qed.

Lemma sync_spec answers self :
  (Node.sync answers self = ((false, length (Blockchain.chain self)), self) /\
   forall answer chain,
     answer ∈ answers -> Node.candidate self answer = Some chain ->
     (length chain <= length (Blockchain.chain self))%nat) \/
  (exists answer chain,
      answer ∈ answers /\ Node.candidate self answer = Some chain /\
      (length (Blockchain.chain self) < length chain)%nat /\
      (forall answer' chain',
          answer' ∈ answers -> Node.candidate self answer' = Some chain' ->
          (length chain' <= length chain)%nat) /\
      Node.sync answers self
      = ((true, length chain), Blockchain.set_chain chain self)).
Proof.
  unfold Node.sync.
  destruct (longest_spec self answers (Blockchain.chain self)) as (Hge & Hall & Hfrom).
  cbv zeta in Hge, Hall, Hfrom.
  set (longest := fold_left (Node.visit self) answers (Blockchain.chain self)) in *.
  destruct Hfrom as [Heq | (answer & Hin & Hcand & Hlen)].
  - left. rewrite Heq in Hall |- *. rewrite replace_chain_tie by lia. auto.
  - right. exists answer, longest. repeat split; try assumption.
    unfold Blockchain.replace_chain.
    rewrite (candidate_valid _ _ _ Hcand).
    destruct (Nat.ltb_spec (length (Blockchain.chain self)) (length longest)); [|lia].
    reflexivity.
Qed.
End NodeFacts.

(** X9: whatever its record decodes to, [receive_block] either leaves the
    ledger as it was, or appends the decoded block and removes from the
    mempool the entries the block holds.  In that case the block stores
    the hash of its content, names the head of the chain, carries the next
    index and a later timestamp; the chain was valid before and is valid
    after.  Nothing is asked of the leading zeros of the hash. *)
Theorem receive_block_outcomes {A : Type} `{Amount A}
    (decoded : option (Block.t A)) (self : Blockchain.t A) :
  let result := Node.receive_block decoded self in
  (fst result = false -> snd result = self) /\
  (fst result = true ->
   exists block latest,
     decoded = Some block /\
     Blockchain.get_latest_block self = Some latest /\
     snd result
     = Blockchain.set_mempool
         (Blockchain.prune (Blockchain.included (Block.transactions block))
                           (Blockchain.mempool self))
         (Blockchain.set_chain (Blockchain.chain self ++ [block]) self) /\
     Block.hash block = Block.calculate_hash block /\
     Block.previous_hash block = Block.hash latest /\
     Block.index block = Z.of_nat (length (Blockchain.chain self)) /\
     DateTime.ltb (Block.timestamp latest) (Block.timestamp block) = true /\
     Blockchain.is_chain_valid None self = true /\
     Blockchain.is_chain_valid None (snd result) = true).
Proof.
  intros result. subst result.
  destruct (receive_block_inv decoded self)
    as [-> | (block & latest & Hd & Hl & Hp & Hv & ->)]; simpl.
  - split; [reflexivity | discriminate].
  - split; [discriminate|]. intros _. exists block, latest.
    destruct (valid_snoc_inv _ _ _ _ Hl Hv) as (Hh & _ & Hi & Hts).
    repeat split; try assumption.
    + assert (Hne : Blockchain.chain self <> [])
        by (intros Hnil; unfold Blockchain.get_latest_block in Hl; rewrite Hnil in Hl;
            discriminate).
      rewrite (is_chain_valid_installed (Blockchain.chain self) self self Hne eq_refl).
      eapply valid_prefix; eassumption.
    + rewrite (is_chain_valid_installed (Blockchain.chain self ++ [block]) self);
        [exact Hv | apply snoc_not_nil | reflexivity].
Qed.

Lemma receive_block_outcomes_witness :
  Block.index Scenario.unmined = 1 /\
  DateTime.ltb (Block.timestamp Scenario.genesis) (Block.timestamp Scenario.unmined) = true /\
  Blockchain.is_chain_valid None
    (snd (Node.receive_block (Some Scenario.unmined) Scenario.fresh)) = true.
Proof.
  destruct (proj2 (receive_block_outcomes (Some Scenario.unmined) Scenario.fresh))
    as (block & latest & Hd & Hl & _ & _ & _ & Hi & Hts & _ & Hv);
    [vm_compute; reflexivity|].
  injection Hd as <-.
  assert (Hlatest : latest = Scenario.genesis).
  { assert (Hg : Blockchain.get_latest_block Scenario.fresh = Some Scenario.genesis)
      by (vm_compute; reflexivity).
    rewrite Hg in Hl. injection Hl as <-. reflexivity. }
  subst latest. split; [exact Hi|]. split; [exact Hts | exact Hv].
Defined.

(** X10: a block that [receive_block] has accepted is refused when its
    record comes again: it does not carry the next index. *)
Theorem receive_block_once {A : Type} `{Amount A}
    (decoded : option (Block.t A)) (self : Blockchain.t A) :
  fst (Node.receive_block decoded self) = true ->
  Node.receive_block decoded (snd (Node.receive_block decoded self))
  = (false, snd (Node.receive_block decoded self)).
Proof.
  destruct (receive_block_inv decoded self)
    as [-> | (block & latest & Hd & Hl & Hp & Hv & ->)]; [discriminate|].
  intros _. simpl.
  set (self' := Blockchain.set_mempool _ _).
  destruct (receive_block_inv decoded self')
    as [Hno | (block' & latest' & Hd' & Hl' & Hp' & Hv' & _)]; [exact Hno|].
  exfalso. rewrite Hd in Hd'. injection Hd' as <-.
  destruct (valid_snoc_inv _ _ _ _ Hl Hv) as (_ & _ & Hi & _).
  destruct (valid_snoc_inv _ _ _ _ Hl' Hv') as (_ & _ & Hi' & _).
  subst self'. simpl in Hi'. rewrite length_app in Hi'. simpl in Hi'. lia.
Qed.

Lemma receive_block_once_witness :
  Node.receive_block (Some Scenario.unmined) Scenario.fresh = (true, Network.received) /\
  Node.receive_block (Some Scenario.unmined) Network.received = (false, Network.received).
Proof.
  assert (Hfirst : Node.receive_block (Some Scenario.unmined) Scenario.fresh
                   = (true, Network.received)) by (vm_compute; reflexivity).
  split; [exact Hfirst|].
  pose proof (receive_block_once (Some Scenario.unmined) Scenario.fresh) as Honce.
  rewrite Hfirst in Honce. apply Honce. reflexivity.
Defined.

(** X11: the record a miner sends out after [mine_block] decodes to the
    block, and the block is accepted by [receive_block] on a peer that
    holds the chain the miner had, when the chain of the miner is valid
    with the new block and the clock reading is a well-formed instant.  The
    peer then holds the chain of the miner, and has dropped from its own
    mempool the entries the block holds. *)
Theorem mined_block_accepted_by_peer {A : Type} `{Amount A}
    (self self' peer : Blockchain.t A) (fuel : nat) (now : DateTime.t)
    (miner : string) (block : Block.t A) :
  Blockchain.mine_block fuel now miner self = Some (Return block, self') ->
  Iso.valid now = true ->
  Blockchain.is_chain_valid None self' = true ->
  Blockchain.chain peer = Blockchain.chain self ->
  Wire.from_dict (Wire.to_dict block) = Wire.Read block /\
  let result := Node.receive_block (Some block) peer in
  fst result = true /\
  Blockchain.chain (snd result) = Blockchain.chain self' /\
  Blockchain.mempool (snd result)
  = Blockchain.prune (Blockchain.included (Block.transactions block))
                     (Blockchain.mempool peer).
Proof.
  intros Hm Hnow Hv Hc.
  destruct (mine_block_success _ _ _ _ _ _ Hm)
    as (latest & Hl & _ & _ & Hp & Hts & _ & _ & ->).
  split; [apply decode_encode; rewrite Hts; exact Hnow|].
  intros result. subst result. unfold Node.receive_block.
  assert (Hv' : Blockchain.is_chain_valid (Some (Blockchain.chain self ++ [block])) peer
                = true).
  { rewrite <- Hv. symmetry.
    apply is_chain_valid_installed; [apply snoc_not_nil | reflexivity]. }
  unfold Blockchain.get_latest_block in *. rewrite Hc, Hl, Hp, String.eqb_refl, Hv'.
  simpl. auto.
Qed.

Lemma mined_block_accepted_by_peer_witness :
  Wire.from_dict (Wire.to_dict Network.erin_block) = Wire.Read Network.erin_block /\
  fst (Node.receive_block (Some Network.erin_block) Scenario.fresh) = true /\
  Blockchain.chain (snd (Node.receive_block (Some Network.erin_block) Scenario.fresh))
  = Blockchain.chain Scenario.mined1.
Proof.
  assert (Hm : Blockchain.mine_block 1000 Scenario.t1 "erin" Scenario.fresh
               = Some (Return Network.erin_block, Scenario.mined1))
    by (vm_compute; reflexivity).
  destruct (mined_block_accepted_by_peer _ _ Scenario.fresh _ _ _ _ Hm)
    as (Hd & Hyes & Hchain & _); [vm_compute; reflexivity .. | reflexivity |].
  split; [exact Hd|]. split; assumption.
Defined.

(** X12: [sync] ends on a chain that is at least as long as the chain it
    started with and as every chain that a peer offered and that is
    valid.  It reports a replacement exactly when some such chain is longer
    than its own; the chain it holds then is one of those, the rest of the
    ledger is as it was, and the length it reports is the length of the
    chain it holds. *)
Theorem sync_longest_valid {A : Type} `{Amount A}
    (answers : list (option (list (Block.t A)))) (self : Blockchain.t A) :
  let result := Node.sync answers self in
  let replaced := fst (fst result) in
  let self' := snd result in
  snd (fst result) = length (Blockchain.chain self') /\
  (length (Blockchain.chain self) <= length (Blockchain.chain self'))%nat /\
  (forall answer chain,
      answer ∈ answers -> Node.candidate self answer = Some chain ->
      (length chain <= length (Blockchain.chain self'))%nat) /\
  (replaced = true <->
   exists answer chain,
     answer ∈ answers /\ Node.candidate self answer = Some chain /\
     (length (Blockchain.chain self) < length chain)%nat) /\
  (replaced = true ->
   exists answer,
     answer ∈ answers /\ Node.candidate self answer = Some (Blockchain.chain self') /\
     self' = Blockchain.set_chain (Blockchain.chain self') self) /\
  (replaced = false -> self' = self).
Proof.
  intros result replaced self'. subst result replaced self'.
  destruct (sync_spec answers self)
    as [[-> Hall] | (answer & chain & Hin & Hcand & Hlen & Hall & ->)]; simpl.
  - repeat split; try discriminate; auto.
    intros (answer & chain & Hin & Hcand & Hlen).
    specialize (Hall _ _ Hin Hcand). lia.
  - repeat split; try discriminate; auto; try lia; eauto 6.
Qed.

Lemma sync_longest_valid_witness :
  fst (fst (Node.sync [Network.ahead; Network.silent] Scenario.fresh)) = true.
Proof.
  destruct (sync_longest_valid [Network.ahead; Network.silent] Scenario.fresh)
    as (_ & _ & _ & Hiff & _).
  apply Hiff. exists Network.ahead, (Blockchain.chain Scenario.mined1).
  split; [apply list_elem_of_here|].
  split; [vm_compute; reflexivity | simpl; lia].
Defined.

(** X13: a second [sync] on the same answers changes nothing and reports
    no replacement. *)
Theorem sync_settles {A : Type} `{Amount A}
    (answers : list (option (list (Block.t A)))) (self : Blockchain.t A) :
  let self' := snd (Node.sync answers self) in
  Node.sync answers self' = ((false, length (Blockchain.chain self')), self').
Proof.
  intros self'. subst self'.
  destruct (sync_spec answers self)
    as [[Heq Hall] | (answer & chain & Hin & Hcand & Hlen & Hall & ->)].
  - rewrite Heq. simpl. exact Heq.
  - simpl.
    destruct (sync_spec answers (Blockchain.set_chain chain self))
      as [[Heq' _] | (answer' & chain' & Hin' & Hcand' & Hlen' & _)]; [exact Heq'|].
    exfalso. simpl in Hlen'.
    assert (Hne : chain' <> []) by (intros ->; simpl in Hlen'; lia).
    apply (candidate_other _ self _ _ Hne) in Hcand'.
    specialize (Hall _ _ Hin' Hcand'). lia.
Qed.

(** X14: the length [sync] reports, and whether it reports a replacement,
    do not depend on the order in which the peers are visited. *)
Theorem sync_order_independent {A : Type} `{Amount A}
    (answers answers' : list (option (list (Block.t A))))
    (self : Blockchain.t A) :
  Permutation answers answers' ->
  fst (Node.sync answers self) = fst (Node.sync answers' self).
Proof.
  intros Hperm.
  assert (Hmem : forall answer, answer ∈ answers <-> answer ∈ answers')
    by (intros answer; rewrite Hperm; reflexivity).
  destruct (sync_spec answers self)
    as [[-> Hall] | (answer & chain & Hin & Hcand & Hlen & Hall & ->)];
    destruct (sync_spec answers' self)
      as [[-> Hall'] | (answer' & chain' & Hin' & Hcand' & Hlen' & Hall' & ->)];
    simpl.
  - reflexivity.
  - apply Hmem in Hin'. specialize (Hall _ _ Hin' Hcand'). lia.
  - apply Hmem in Hin. specialize (Hall' _ _ Hin Hcand). lia.
  - apply Hmem in Hin. apply Hmem in Hin'.
    specialize (Hall _ _ Hin' Hcand'). specialize (Hall' _ _ Hin Hcand).
    f_equal. lia.
Qed.

Lemma sync_order_independent_witness :
  fst (Node.sync [Network.ahead; Network.silent] Scenario.fresh)
  = fst (Node.sync [Network.silent; Network.ahead] Scenario.fresh).
Proof. apply sync_order_independent. apply perm_swap. Defined.

(** ** What every call keeps *)

Section CallFacts.
Context {A : Type} `{Amount A}.
Implicit Types (self : Blockchain.t A).

Lemma register_node_cases address self :
  Blockchain.register_node address self = (Raise (ValueError Empty_node_address), self) \/
  Py.is_blank address = false /\
  Blockchain.register_node address self
  = (Return tt, Blockchain.set_nodes ({[address]} ∪ Blockchain.nodes self) self).
Proof.
  unfold Blockchain.register_node.
  destruct (Py.is_blank address); [left | right]; auto.
Qed.

Lemma add_transaction_cases (tx : Blockchain.request A) self :
  snd (Blockchain.add_transaction tx self) = self \/
  exists s r a,
    Py.is_blank s = false /\ Py.is_blank r = false /\ amt_leb a amt_zero = false /\
    snd (Blockchain.add_transaction tx self)
    = Blockchain.set_mempool (Blockchain.mempool self ++ [mkTx s r a]) self.
Proof.
  unfold Blockchain.add_transaction.
  destruct (Blockchain.req_from tx) as [s|]; [|left; reflexivity].
  destruct (Blockchain.req_to tx) as [r|]; [|left; reflexivity].
  destruct (Blockchain.req_amount tx) as [a|]; [|left; reflexivity].
  destruct (Py.is_blank s) eqn:Hs; [left; reflexivity|].
  destruct (Py.is_blank r) eqn:Hr; [left; reflexivity|]. simpl.
  destruct (amt_leb a amt_zero) eqn:Ha; [left; reflexivity|].
  destruct (_ && _); [left; reflexivity|].
  right. exists s, r, a. auto.
Qed.

Lemma mine_block_cases fuel now miner self result self' :
  Blockchain.mine_block fuel now miner self = Some (result, self') ->
  self' = self \/
  exists block,
    result = Return block /\
    self' = Blockchain.set_mempool
              (Blockchain.prune
                 (Blockchain.included
                    (Py.list_prefix (Blockchain.block_capacity self) (Blockchain.mempool self)
                     ++ [mkTx SYSTEM miner (Blockchain.mining_reward self)]))
                 (Blockchain.mempool self))
              (Blockchain.set_chain (Blockchain.chain self ++ [block]) self).
Proof.
  unfold Blockchain.mine_block.
  destruct (Py.is_blank miner); [intros Heq; injection Heq as <- <-; left; reflexivity|].
  destruct (Blockchain.get_latest_block self) as [latest|];
    [|intros Heq; injection Heq as <- <-; left; reflexivity].
  destruct (Block.mine_block _ _ _) as [block|]; [|discriminate].
  intros Heq. injection Heq as <- <-. right. exists block. auto.
Qed.

Lemma replace_chain_cases new_chain self :
  Blockchain.replace_chain new_chain self = (false, self) \/
  (length (Blockchain.chain self) < length new_chain)%nat /\
  Blockchain.is_chain_valid (Some new_chain) self = true /\
  Blockchain.replace_chain new_chain self = (true, Blockchain.set_chain new_chain self).
Proof.
  unfold Blockchain.replace_chain.
  destruct (Nat.ltb_spec (length (Blockchain.chain self)) (length new_chain));
    [|left; reflexivity].
  destruct (Blockchain.is_chain_valid (Some new_chain) self); [right | left]; auto.
Qed.

Lemma prune_subset inc (pool : list (Transaction A)) tx :
  tx ∈ Blockchain.prune inc pool -> tx ∈ pool.
Proof. unfold Blockchain.prune. rewrite list_elem_of_filter. tauto. Qed.

(** One call: the chain does not get shorter, the settings stay, the
    mempool gains at most one admissible entry, the set of nodes gains at
    most one address that is not blank. *)
Lemma call_keeps self self' :
  Node.call self self' ->
  (length (Blockchain.chain self) <= length (Blockchain.chain self'))%nat /\
  Node.settings self' = Node.settings self /\
  (forall tx, tx ∈ Blockchain.mempool self' ->
              tx ∈ Blockchain.mempool self \/ Node.admissible tx) /\
  (forall node, node ∈ Blockchain.nodes self' ->
                node ∈ Blockchain.nodes self \/ Py.is_blank node = false).
Proof.
  intros Hcall. destruct Hcall as
    [address self | tx self | fuel now miner self result self' Hm
     | new_chain self | decoded self | answers self].
  - destruct (register_node_cases address self) as [-> | [Hb ->]]; simpl.
    + repeat split; auto.
    + repeat split; auto. intros node Hin.
      apply elem_of_union in Hin as [Hin | Hin]; [|auto].
      apply elem_of_singleton in Hin as ->. auto.
  - destruct (add_transaction_cases tx self) as [-> | (s & r & a & Hs & Hr & Ha & ->)];
      simpl.
    + repeat split; auto.
    + repeat split; auto. intros tx' Hin.
      apply elem_of_app in Hin as [Hin | Hin]; [auto|].
      apply list_elem_of_singleton in Hin as ->. right. repeat split; assumption.
  - destruct (mine_block_cases _ _ _ _ _ _ Hm) as [-> | (block & _ & ->)]; simpl.
    + repeat split; auto.
    + rewrite length_app. simpl. repeat split; auto; [lia|].
      intros tx Hin. left. eapply prune_subset, Hin.
  - destruct (replace_chain_cases new_chain self) as [-> | (Hl & _ & ->)]; simpl.
    + repeat split; auto.
    + repeat split; auto. lia.
  - destruct (receive_block_inv decoded self)
      as [-> | (block & latest & _ & _ & _ & _ & ->)]; simpl.
    + repeat split; auto.
    + rewrite length_app. simpl. repeat split; auto; [lia|].
      intros tx Hin. left. eapply prune_subset, Hin.
  - destruct (sync_spec answers self) as [[-> _] | (answer & chain & _ & _ & Hl & _ & ->)];
      simpl.
    + repeat split; auto.
    + repeat split; auto. lia.
Qed.

Lemma history_keeps start self :
  Node.history start self ->
  (length (Blockchain.chain start) <= length (Blockchain.chain self))%nat /\
  Node.settings self = Node.settings start /\
  (forall tx, tx ∈ Blockchain.mempool self ->
              tx ∈ Blockchain.mempool start \/ Node.admissible tx) /\
  (forall node, node ∈ Blockchain.nodes self ->
                node ∈ Blockchain.nodes start \/ Py.is_blank node = false).
Proof.
  induction 1 as [|self self' _ (IHl & IHs & IHm & IHn) Hcall].
  - repeat split; auto.
  - destruct (call_keeps _ _ Hcall) as (Hl & Hs & Hm & Hn).
    split; [lia|]. split; [congruence|]. split.
    + intros tx Hin. destruct (Hm _ Hin) as [Hold | Hnew]; auto.
    + intros node Hin. destruct (Hn _ Hin) as [Hold | Hnew]; auto.
Qed.

End CallFacts.

(** X15: whatever is called on a ledger, with whatever arguments and
    outcome -- [register_node], [add_transaction], [mine_block],
    [replace_chain], [receive_block] and [sync] with whatever blocks and
    chains their input decodes to -- its chain never gets shorter and its
    difficulty, reward and capacity stay as they were.
    A ledger that starts with a block therefore always has a head:
    [mine_block] never fails on an empty chain. *)
Theorem chain_never_shrinks {A : Type} `{Amount A} (start self : Blockchain.t A) :
  Node.history start self ->
  Blockchain.chain start <> [] ->
  (length (Blockchain.chain start) <= length (Blockchain.chain self))%nat /\
  Blockchain.difficulty self = Blockchain.difficulty start /\
  Blockchain.mining_reward self = Blockchain.mining_reward start /\
  Blockchain.block_capacity self = Blockchain.block_capacity start /\
  is_Some (Blockchain.get_latest_block self) /\
  forall fuel now miner self',
    Blockchain.mine_block fuel now miner self <> Some (Raise IndexError, self').
Proof.
  intros Hh Hne. destruct (history_keeps _ _ Hh) as (Hl & Hs & _ & _).
  unfold Node.settings in Hs. injection Hs as Hd Hr Hc.
  assert (Hhead : is_Some (Blockchain.get_latest_block self)).
  { unfold Blockchain.get_latest_block.
    destruct (Blockchain.chain self) as [|b chain] eqn:Hchain.
    - destruct (Blockchain.chain start); [congruence | simpl in Hl; lia].
    - rewrite last_cons. destruct (last chain); eauto. }
  repeat split; try assumption.
  intros fuel now miner self'. unfold Blockchain.mine_block.
  destruct (Py.is_blank miner); [discriminate|].
  destruct Hhead as [latest ->].
  destruct (Block.mine_block _ _ _); discriminate.
Qed.

Lemma chain_never_shrinks_witness :
  (length (Blockchain.chain Scenario.fresh) <= length (Blockchain.chain Network.received))%nat /\
  is_Some (Blockchain.get_latest_block Network.received).
Proof.
  assert (Hh : Node.history Scenario.fresh Network.received).
  { apply (Node.history_call _ Scenario.fresh); [apply Node.history_start|].
    exact (Node.call_receive (Some Scenario.unmined) Scenario.fresh). }
  destruct (chain_never_shrinks Scenario.fresh Network.received Hh)
    as (Hl & _ & _ & _ & Hhead & _); [discriminate|].
  split; assumption.
Defined.

(** X16: whatever is called on a ledger created by [Blockchain(...)],
    every entry of its mempool has a sender and a recipient that are not
    blank and an amount for which [amount <= 0] is false, and no address
    of its set of nodes is blank. *)
Theorem mempool_entries_admissible {A : Type} `{Amount A}
    difficulty (reward : A) capacity (self : Blockchain.t A) :
  Node.history (Blockchain.init difficulty reward capacity) self ->
  (forall tx, tx ∈ Blockchain.mempool self -> Node.admissible tx) /\
  (forall node, node ∈ Blockchain.nodes self -> Py.is_blank node = false).
Proof.
  intros Hh. destruct (history_keeps _ _ Hh) as (_ & _ & Hm & Hn). split.
  - intros tx Hin. destruct (Hm _ Hin) as [Hold | Hnew]; [inversion Hold | exact Hnew].
  - intros node Hin. destruct (Hn _ Hin) as [Hold | Hnew]; [|exact Hnew].
    simpl in Hold. apply elem_of_empty in Hold. contradiction.
Qed.

Lemma mempool_entries_admissible_witness :
  Node.admissible (mkTx "genesis" "a" 0x1.999999999999ap-4%float).
Proof.
  assert (Hh : Node.history (Blockchain.init 3 (amt_of_int 50) 100) Scenario.drift1).
  { apply (Node.history_call _ Scenario.fresh); [apply Node.history_start|].
    exact (Node.call_add Scenario.pay_a Scenario.fresh). }
  apply (proj1 (mempool_entries_admissible 3 (amt_of_int 50) 100 Scenario.drift1 Hh)).
  apply list_elem_of_here.
Defined.

(** X17: on every arithmetic, a call that creates no block --
    [register_node], [add_transaction], [replace_chain], [receive_block],
    [sync] -- leaves a ledger whose chain is valid with a chain that is
    valid. *)
Theorem quiet_calls_keep_validity {A : Type} `{Amount A} (self self' : Blockchain.t A) :
  Node.quiet self self' ->
  Blockchain.is_chain_valid None self = true ->
  Blockchain.is_chain_valid None self' = true.
Proof.
  intros Hq Hv. destruct Hq as
    [address self | tx self | new_chain self | decoded self | answers self].
  - destruct (register_node_cases address self) as [-> | [_ ->]]; exact Hv.
  - destruct (add_transaction_cases tx self) as [-> | (s & r & a & _ & _ & _ & ->)];
      exact Hv.
  - destruct (replace_chain_cases new_chain self) as [-> | (Hl & Hnew & ->)];
      [exact Hv|]. simpl.
    rewrite (is_chain_valid_installed new_chain self); [exact Hnew | | reflexivity].
    intros ->. simpl in Hl. lia.
  - destruct (receive_block_inv decoded self)
      as [-> | (block & latest & _ & _ & _ & Hnew & ->)]; [exact Hv|]. simpl.
    rewrite (is_chain_valid_installed (Blockchain.chain self ++ [block]) self);
      [exact Hnew | apply snoc_not_nil | reflexivity].
  - destruct (sync_spec answers self)
      as [[-> _] | (answer & chain & _ & Hcand & Hl & _ & ->)]; [exact Hv|]. simpl.
    rewrite (is_chain_valid_installed chain self);
      [exact (candidate_valid _ _ _ Hcand) | | reflexivity].
    intros ->. simpl in Hl. lia.
Qed.

Lemma quiet_calls_keep_validity_witness :
  Blockchain.is_chain_valid None Network.received = true.
Proof.
  apply (quiet_calls_keep_validity Scenario.fresh).
  - exact (Node.quiet_receive (Some Scenario.unmined) Scenario.fresh).
  - vm_compute. reflexivity.
Defined.

(** ** The search for a nonce *)

Section SearchFacts.
Context {A : Type} `{Amount A}.
Implicit Types b : Block.t A.

Lemma nonce_iter (k : nat) :
  forall b, Block.nonce (Nat.iter k Block.next_nonce b) = Block.nonce b + Z.of_nat k.
Proof.
  induction k as [|k IH]; intros b; [simpl; lia|].
  rewrite Nat.iter_succ_r, IH. simpl. lia.
Qed.
End SearchFacts.

(** X18: when [Block.mine_block] returns, the block it returns is the
    block it was given after some number [k] of turns of the loop: its
    nonce is [k] above the nonce it started with, it meets the target, and
    none of the blocks of the turns before does.  The nonce found is the
    least one. *)
Theorem mine_block_least_nonce {A : Type} `{Amount A}
    (fuel : nat) (difficulty : Z) (b b' : Block.t A) :
  Block.mine_block fuel difficulty b = Some b' ->
  exists k : nat,
    (k <= fuel)%nat /\
    b' = Nat.iter k Block.next_nonce b /\
    Block.nonce b' = Block.nonce b + Z.of_nat k /\
    Block.meets_target difficulty b' = true /\
    forall j : nat,
      (j < k)%nat ->
      Block.meets_target difficulty (Nat.iter j Block.next_nonce b) = false.
Proof.
  revert b. induction fuel as [|fuel IH]; intros b Hm; simpl in Hm;
    destruct (Block.meets_target difficulty b) eqn:Ht; try discriminate.
  - injection Hm as <-. exists 0%nat. simpl.
    split; [lia|]. split; [reflexivity|]. split; [lia|]. split; [exact Ht|].
    intros j Hj. lia.
  - injection Hm as <-. exists 0%nat. simpl.
    split; [lia|]. split; [reflexivity|]. split; [lia|]. split; [exact Ht|].
    intros j Hj. lia.
  - destruct (IH _ Hm) as (k & Hk & Hb & Hn & Hmeets & Hleast).
    exists (S k). rewrite Nat.iter_succ_r. split; [lia|]. split; [exact Hb|].
    split; [rewrite Hn; simpl; lia|]. split; [exact Hmeets|].
    intros [|j] Hj; [exact Ht|]. rewrite Nat.iter_succ_r. apply Hleast. lia.
Qed.

Lemma mine_block_least_nonce_witness :
  exists k : nat,
    Network.erin_block
    = Nat.iter k Block.next_nonce
        (Block.init 1 (Block.hash Scenario.genesis)
           [mkTx SYSTEM "erin" 50%float] Scenario.t1) /\
    Block.nonce Network.erin_block = Z.of_nat k.
Proof.
  assert (Hm : Block.mine_block 1000 3
                 (Block.init 1 (Block.hash Scenario.genesis)
                    [mkTx SYSTEM "erin" 50%float] Scenario.t1)
               = Some Network.erin_block) by (vm_compute; reflexivity).
  destruct (mine_block_least_nonce _ _ _ _ Hm) as (k & _ & Hb & Hn & _).
  exists k. split; [exact Hb | exact Hn].
Defined.

(** ** Blocks made by [mine_block] on the ledger *)

(** X19: when the mempool fits in a block, [mine_block] puts all of it in
    the block, in order, before the reward; the entries that are still in
    the mempool afterwards were in it before and are all sent by SYSTEM. *)
Theorem mine_block_takes_all {A : Type} `{Amount A}
    (self self' : Blockchain.t A) (fuel : nat) (now : DateTime.t)
    (miner : string) (block : Block.t A) :
  Blockchain.mine_block fuel now miner self = Some (Return block, self') ->
  Z.of_nat (length (Blockchain.mempool self)) <= Blockchain.block_capacity self ->
  Block.transactions block
  = Blockchain.mempool self ++ [mkTx SYSTEM miner (Blockchain.mining_reward self)] /\
  forall tx, tx ∈ Blockchain.mempool self' ->
             tx ∈ Blockchain.mempool self /\ tx_from tx = SYSTEM.
Proof.
  intros Hm Hcap.
  destruct (mine_block_success _ _ _ _ _ _ Hm) as (latest & _ & Htxs & _ & _ & _ & _ & _ & ->).
  rewrite list_prefix_oldest in Htxs |- * by lia.
  rewrite Nat.min_r in Htxs |- * by lia.
  rewrite take_ge in Htxs |- * by lia.
  split; [exact Htxs|]. simpl. intros tx Hin.
  apply prune_spec in Hin as [Hin Hnot]. split; [exact Hin|].
  destruct (decide (tx_from tx = SYSTEM)) as [Hs|Hs]; [exact Hs|].
  exfalso. apply Hnot. exists tx. split; [|auto].
  apply elem_of_app. left. exact Hin.
Qed.

Lemma mine_block_takes_all_witness :
  exists block self',
    Blockchain.mine_block 1000 Scenario.t1 "heidi" Scenario.drift3
    = Some (Return block, self') /\
    Block.transactions block
    = Blockchain.mempool Scenario.drift3 ++ [mkTx SYSTEM "heidi" 50%float] /\
    forall tx, tx ∈ Blockchain.mempool self' -> tx_from tx = SYSTEM.
Proof.
  eassert (Hm : Blockchain.mine_block 1000 Scenario.t1 "heidi" Scenario.drift3
                = Some (Return _, _)) by (vm_compute; reflexivity).
  eexists. eexists. split; [exact Hm|].
  destruct (mine_block_takes_all _ _ _ _ _ _ Hm) as [Htxs Hrest]; [vm_compute; discriminate|].
  split; [exact Htxs|]. intros tx Hin. apply (Hrest tx Hin).
Defined.

Section StructureFacts.
Context {A : Type} `{Amount A}.
Implicit Types (self : Blockchain.t A) (b prev : Block.t A).

Lemma lookup_snoc_cases {X} (l : list X) (x y : X) (i : nat) :
  (l ++ [x]) !! i = Some y ->
  l !! i = Some y \/ (i = length l /\ y = x).
Proof.
  intros Hi. apply lookup_app_Some in Hi as [Hi | [Hge Hi]]; [auto|].
  right. destruct (i - length l)%nat as [|n] eqn:Hd; simpl in Hi; [|destruct n; discriminate].
  injection Hi as <-. split; [lia | reflexivity].
Qed.
End StructureFacts.

(** X20: on every arithmetic and with every clock, a chain produced from
    a fresh ledger by successful [add_transaction] and [mine_block] calls
    starts with the genesis block; each of its blocks stores the hash of
    its content and carries its position as index; each block after the
    first names the hash of the block before it, meets the target of the
    difficulty, is stamped with a clock reading taken on top of that block,
    and ends with a reward of the configured amount sent by SYSTEM. *)
Theorem honest_chain_structure {A : Type} `{Amount A}
    (clock_ok : DateTime.t -> DateTime.t -> Prop)
    difficulty (reward : A) capacity (self : Blockchain.t A) :
  reachable clock_ok (Blockchain.init difficulty reward capacity) self ->
  Blockchain.chain self !! 0%nat = Some Blockchain.create_genesis_block /\
  (forall i b,
      Blockchain.chain self !! i = Some b ->
      Block.hash b = Block.calculate_hash b /\ Block.index b = Z.of_nat i) /\
  (forall i prev b,
      Blockchain.chain self !! i = Some prev ->
      Blockchain.chain self !! S i = Some b ->
      Block.previous_hash b = Block.hash prev /\
      Block.meets_target difficulty b = true /\
      clock_ok (Block.timestamp prev) (Block.timestamp b) /\
      exists miner txs,
        Block.transactions b = txs ++ [mkTx SYSTEM miner reward]).
Proof.
  intros Hreach.
  assert (Hinv : Blockchain.difficulty self = difficulty /\
                 Blockchain.mining_reward self = reward /\
                 Blockchain.chain self !! 0%nat = Some Blockchain.create_genesis_block /\
                 (forall i b,
                     Blockchain.chain self !! i = Some b ->
                     Block.hash b = Block.calculate_hash b /\ Block.index b = Z.of_nat i) /\
                 (forall i prev b,
                     Blockchain.chain self !! i = Some prev ->
                     Blockchain.chain self !! S i = Some b ->
                     Block.previous_hash b = Block.hash prev /\
                     Block.meets_target difficulty b = true /\
                     clock_ok (Block.timestamp prev) (Block.timestamp b) /\
                     exists miner txs,
                       Block.transactions b = txs ++ [mkTx SYSTEM miner reward])).
  2: { destruct Hinv as (_ & _ & Hinv). exact Hinv. }
  induction Hreach as [|self self' _ (IHd & IHr & IHg & IHb & IHl) Hstep].
  - split; [reflexivity|]. split; [reflexivity|]. split; [reflexivity|]. split.
    + intros [|i] b Hb; simpl in Hb; [|destruct i; discriminate].
      injection Hb as <-. split; [apply init_consistent | reflexivity].
    + intros i prev b _ Hb. simpl in Hb. destruct i; discriminate.
  - destruct Hstep as [tx self self' Hadd
                      | fuel now miner latest block self self' Hl Hc Hm].
    + apply add_transaction_success in Hadd as (s & r & a & _ & _ & ->).
      simpl. auto.
    + destruct (mine_block_success _ _ _ _ _ _ Hm)
        as (latest' & Hl' & Htxs & Hi & Hp & Hts & Hh & Ht & ->).
      rewrite Hl in Hl'. injection Hl' as <-.
      unfold Blockchain.get_latest_block in Hl. rewrite last_lookup in Hl.
      assert (Hpos : (0 < length (Blockchain.chain self))%nat)
        by (apply lookup_lt_Some in IHg; exact IHg).
      simpl. split; [exact IHd|]. split; [exact IHr|]. split; [|split].
      * rewrite lookup_app_l by exact Hpos. exact IHg.
      * intros i b Hb. apply lookup_snoc_cases in Hb as [Hb | [-> ->]];
          [apply IHb, Hb | split; assumption].
      * intros i prev b Hprev Hb.
        apply lookup_snoc_cases in Hb as [Hb | [Hlen ->]].
        -- apply lookup_snoc_cases in Hprev as [Hprev | [-> _]].
           ++ eapply IHl; eassumption.
           ++ apply lookup_lt_Some in Hb. lia.
        -- apply lookup_snoc_cases in Hprev as [Hprev | [-> _]]; [|lia].
           assert (Hi' : i = pred (length (Blockchain.chain self))) by lia.
           rewrite Hi', Hl in Hprev. injection Hprev as <-.
           rewrite Hts, <- IHd. repeat split; try assumption.
           exists miner. eexists. rewrite <- IHr. exact Htxs.
Qed.

Lemma honest_chain_structure_witness :
  Blockchain.chain Scenario.drift4 !! 0%nat = Some Blockchain.create_genesis_block /\
  forall i prev b,
    Blockchain.chain Scenario.drift4 !! i = Some prev ->
    Blockchain.chain Scenario.drift4 !! S i = Some b ->
    Block.previous_hash b = Block.hash prev /\ Block.meets_target 3 b = true.
Proof.
  assert (Hr : reachable any_clock (Blockchain.init 3 (amt_of_int 50) 100) Scenario.drift4).
  { apply (reach_step _ _ Scenario.drift3).
    - apply (reach_step _ _ Scenario.drift2).
      + apply (reach_step _ _ Scenario.drift1).
        * apply (reach_step _ _ Scenario.fresh); [apply reach_start|].
          apply (step_add _ Scenario.pay_a). vm_compute. reflexivity.
        * apply (step_add _ Scenario.pay_b). vm_compute. reflexivity.
      + apply (step_add _ Scenario.pay_c). vm_compute. reflexivity.
    - eapply (step_mine _ 1000 Scenario.t1 "heidi" Scenario.genesis);
        [vm_compute; reflexivity | exact I | vm_compute; reflexivity]. }
  destruct (honest_chain_structure any_clock _ _ _ _ Hr) as (Hg & _ & Hl).
  split; [exact Hg|]. intros i prev b Hp Hb.
  destruct (Hl i prev b Hp Hb) as (Hph & Ht & _). split; assumption.
Defined.

(** ** The order of the timestamps *)

Lemma lex_compare_lt_trans (a : list N) :
  forall b c,
    DateTime.lex_compare a b = Lt -> DateTime.lex_compare b c = Lt ->
    DateTime.lex_compare a c = Lt.
Proof.
  induction a as [|x a IH]; intros [|y b] [|z c]; simpl; try congruence.
  destruct (x ?= y)%N eqn:Hxy; try discriminate;
    destruct (y ?= z)%N eqn:Hyz; try discriminate; intros Hab Hbc.
  - apply N.compare_eq_iff in Hxy, Hyz. subst. rewrite N.compare_refl.
    eapply IH; eassumption.
  - apply N.compare_eq_iff in Hxy. subst. rewrite Hyz. reflexivity.
  - apply N.compare_eq_iff in Hyz. subst. rewrite Hxy. reflexivity.
  - apply N.compare_lt_iff in Hxy. apply N.compare_lt_iff in Hyz.
    rewrite (proj2 (N.compare_lt_iff x z) (N.lt_trans _ _ _ Hxy Hyz)). reflexivity.
Qed.

Lemma ltb_trans (a b c : DateTime.t) :
  DateTime.ltb a b = true -> DateTime.ltb b c = true -> DateTime.ltb a c = true.
Proof.
  unfold DateTime.ltb, DateTime.compare. intros Hab Hbc.
  destruct (DateTime.lex_compare (DateTime.fields a) (DateTime.fields b)) eqn:H1;
    try discriminate.
  destruct (DateTime.lex_compare (DateTime.fields b) (DateTime.fields c)) eqn:H2;
    try discriminate.
  rewrite (lex_compare_lt_trans _ _ _ H1 H2). reflexivity.
Qed.

(** X21: in a chain that [is_chain_valid] accepts, a block that comes
    later than another carries a later timestamp, whatever the distance
    between the two, and its index is its position: no two blocks of the
    chain share a timestamp. *)
Theorem valid_chain_timestamps_increase {A : Type} `{Amount A}
    (self : Blockchain.t A) (arg : option (list (Block.t A)))
    (i j : nat) (bi bj : Block.t A) :
  Blockchain.is_chain_valid arg self = true ->
  Blockchain.chain_or_own arg self !! i = Some bi ->
  Blockchain.chain_or_own arg self !! j = Some bj ->
  (i < j)%nat ->
  DateTime.ltb (Block.timestamp bi) (Block.timestamp bj) = true /\
  Block.index bj = Z.of_nat j.
Proof.
  intros Hv. unfold Blockchain.is_chain_valid in Hv. cbv zeta in Hv.
  set (chain := Blockchain.chain_or_own arg self) in *.
  pose proof (valid_from_inv chain chain 0 ∅ Hv) as Hinv.
  assert (Hnext : forall k prev b,
             chain !! k = Some prev -> chain !! S k = Some b ->
             DateTime.ltb (Block.timestamp prev) (Block.timestamp b) = true /\
             Block.index b = Z.of_nat (S k)).
  { intros k prev b Hp Hb. destruct (Hinv _ _ Hb) as [Hc _]. simpl in Hc.
    apply (block_checks_succ _ _ _ _ Hp) in Hc as (_ & _ & Hi & Hts).
    split; [|exact Hi].
    destruct (DateTime.ltb (Block.timestamp prev) (Block.timestamp b)) eqn:Hlt;
      [reflexivity|].
    apply not_ltb_leb in Hlt. congruence. }
  intros Hi Hj Hij. revert bj Hj.
  induction Hij as [|j Hij IH]; intros bj Hj.
  - apply (Hnext _ _ _ Hi Hj).
  - destruct (chain !! j) as [bm|] eqn:Hm.
    + destruct (IH bm eq_refl) as [Hlt _].
      destruct (Hnext _ _ _ Hm Hj) as [Hlt' Hidx].
      split; [eapply ltb_trans; eassumption | exact Hidx].
    + apply lookup_ge_None in Hm. apply lookup_lt_Some in Hj. lia.
Qed.

Lemma valid_chain_timestamps_increase_witness :
  DateTime.ltb (Block.timestamp Scenario.genesis) (Block.timestamp Network.erin_block) = true /\
  Block.index Network.erin_block = 1.
Proof.
  apply (valid_chain_timestamps_increase Scenario.mined1 None 0 1);
    [vm_compute; reflexivity | reflexivity | vm_compute; reflexivity | lia].
Defined.
